(** * gateway/sync.ts: the reconciling sync engine [syncToR2]

    A shallow embedding of [src/gateway/sync.ts].  The function is an
    [async] TypeScript function that talks to a sandbox through three calls
    ([startProcess], [waitForProcess], [getLogs]) and to the mount
    collaborator [mountR2Storage].  It is embedded in a small monad that
    threads the trace of calls made so far and carries JavaScript's three
    completions (normal, [return], [throw]).  The sandbox is an arbitrary
    deterministic oracle: every reply is a function of the history. *)

From Stdlib Require Import String Ascii List Bool ZArith Arith Lia.
From Stdlib Require Import DecimalString.
Import ListNotations.
Open Scope string_scope.
Open Scope list_scope.

(* ================================================================= *)
(** ** JavaScript strings *)

(** A JavaScript string is a sequence of UTF-16 code units.  Captured
    output, error messages and the text typed by users are such strings, so
    every code unit is covered, not only the ones below 256.  The command
    lines, which the code builds from ASCII literals and the mount path and
    only hands to [startProcess], are kept as [string]. *)
Definition JsString : Type := list N.

(** A literal of the source, all of whose characters are ASCII. *)
Definition js (s : string) : JsString :=
  map N_of_ascii (list_ascii_of_string s).

(** [a === b] on strings *)
Fixpoint str_eqb (a b : JsString) : bool :=
  match a, b with
  | [], [] => true
  | x :: a', y :: b' => N.eqb x y && str_eqb a' b'
  | _, _ => false
  end.

(** The string starts with the literal. *)
Fixpoint starts_with (literal s : JsString) : bool :=
  match literal, s with
  | [], _ => true
  | _ :: _, [] => false
  | x :: literal', y :: s' => N.eqb x y && starts_with literal' s'
  end.

(** [s.includes(needle)] *)
Fixpoint includes (needle s : JsString) : bool :=
  match s with
  | [] => starts_with needle []
  | _ :: s' => starts_with needle s || includes needle s'
  end.

(** ECMAScript's WhiteSpace and LineTerminator code points: TAB, LF, VT, FF,
    CR, SP, NBSP, U+1680, U+2000 to U+200A, U+2028, U+2029, U+202F, U+205F,
    U+3000 and U+FEFF. *)
Definition is_white_space (c : N) : bool :=
  ((9 <=? c) && (c <=? 13))%N
  || (c =? 32)%N || (c =? 160)%N || (c =? 5760)%N
  || ((8192 <=? c) && (c <=? 8202))%N
  || (c =? 8232)%N || (c =? 8233)%N || (c =? 8239)%N || (c =? 8287)%N
  || (c =? 12288)%N || (c =? 65279)%N.

Fixpoint trimStart (s : JsString) : JsString :=
  match s with
  | [] => []
  | c :: s' => if is_white_space c then trimStart s' else s
  end.

Fixpoint trimEnd (s : JsString) : JsString :=
  match s with
  | [] => []
  | c :: s' =>
      match trimEnd s' with
      | [] => if is_white_space c then [] else [c]
      | r => c :: r
      end
  end.

(** [s.trim()] *)
Definition trim (s : JsString) : JsString := trimEnd (trimStart s).

(** [\d]: without the [u] and [v] flags, the ten ASCII digits. *)
Definition is_digit (c : N) : bool := ((48 <=? c) && (c <=? 57))%N.

Definition is_dash (c : N) : bool := N.eqb c 45.

(** [s.match(/^\d{4}-\d{2}-\d{2}/)] is not [null] *)
Definition matches_date_prefix (s : JsString) : bool :=
  match s with
  | y1 :: y2 :: y3 :: y4 :: d1 :: m1 :: m2 :: d2 :: a1 :: a2 :: _ =>
      is_digit y1 && is_digit y2 && is_digit y3 && is_digit y4 && is_dash d1
      && is_digit m1 && is_digit m2 && is_dash d2 && is_digit a1 && is_digit a2
  | _ => false
  end.

(** Truthiness of a [string | undefined] value. *)
Definition truthy (v : option JsString) : bool :=
  match v with
  | Some [] | None => false
  | Some _ => true
  end.

(** [a || b] on [string | undefined] values. *)
Definition js_or (a b : option JsString) : option JsString :=
  if truthy a then a else b.

(** [v && v.match(/^\d{4}-\d{2}-\d{2}/)] as a condition. *)
Definition truthy_and_dated (v : option JsString) : bool :=
  truthy v && match v with Some s => matches_date_prefix s | None => false end.

(** The double quote character inside the shell command lines. *)
Definition dq : string := String "034"%char EmptyString.

(* ================================================================= *)
(** ** Data model *)

(** [interface SyncResult] *)
Record SyncResult := mkSyncResult {
  success : bool;
  lastSync : option JsString;
  error : option JsString;
  details : option JsString
}.

(** The three fields of [MoltbotEnv] that [syncToR2] reads. *)
Record MoltbotEnv := mkEnv {
  R2_ACCESS_KEY_ID : option JsString;
  R2_SECRET_ACCESS_KEY : option JsString;
  CF_ACCOUNT_ID : option JsString
}.

(** A thrown JavaScript value: an [Error] object with its message, or
    anything else. *)
Inductive Thrown :=
| JsError (message : JsString)
| JsOther (value : JsString).

(** [err instanceof Error ? err.message : 'Unknown error'] *)
Definition error_message (err : Thrown) : JsString :=
  match err with
  | JsError m => m
  | JsOther _ => js "Unknown error"
  end.

(** What [proc.getLogs()] resolves to; the code reads both fields as
    possibly undefined. *)
Record Logs := mkLogs {
  stdout : option JsString;
  stderr : option JsString
}.

(** A process handle: the sandbox's identifier together with the command
    line the process was started for. *)
Record Process := mkProcess {
  proc_id : nat;
  proc_command : string
}.

(** One interaction with the outside world, with the reply received. *)
Inductive Event :=
| EvMount (mounted : bool)
| EvStart (cmd : string) (reply : Thrown + Process)
| EvWait (p : Process) (timeoutMs : Z) (reply : Thrown + unit)
| EvLogs (p : Process) (reply : Thrown + Logs).

Definition Trace := list Event.

(** The outside world.  Every reply may depend on the whole history of
    earlier interactions, so the record covers every deterministic sandbox,
    and quantifying over it covers every behaviour. *)
Record Sandbox := mkSandbox {
  (** what the mount collaborator answers *)
  mount_reply : MoltbotEnv -> Trace -> bool;
  (** [sandbox.startProcess(cmd)] resolves to a process or rejects. *)
  start_reply : Trace -> string -> Thrown + nat;
  (** awaiting a process with a time limit resolves or rejects *)
  wait_reply : Trace -> Process -> Z -> Thrown + unit;
  (** [proc.getLogs()] resolves to the captured output or rejects. *)
  logs_reply : Trace -> Process -> Thrown + Logs
}.

(* ================================================================= *)
(** ** The monad: trace passing with JavaScript completions *)

Inductive Completion (A : Type) :=
| Normal (a : A)
| Returned (r : SyncResult)
| Threw (e : Thrown).
Arguments Normal {A} a.
Arguments Returned {A} r.
Arguments Threw {A} e.

Definition M (A : Type) : Type := Trace -> Completion A * Trace.

Definition pure {A} (a : A) : M A := fun t => (Normal a, t).

(** The [return] statement. *)
Definition return_ {A} (r : SyncResult) : M A := fun t => (Returned r, t).

Definition bind {A B} (m : M A) (k : A -> M B) : M B :=
  fun t =>
    match m t with
    | (Normal a, t') => k a t'
    | (Returned r, t') => (Returned r, t')
    | (Threw e, t') => (Threw e, t')
    end.

(** [try { body } catch (err) { handler }] *)
Definition try_catch {A} (body : M A) (handler : Thrown -> M A) : M A :=
  fun t =>
    match body t with
    | (Threw e, t') => handler e t'
    | other => other
    end.

Notation "x <- m ;; k" := (bind m (fun x => k))
  (at level 61, m at next level, right associativity).
Notation "m ;; k" := (bind m (fun _ => k))
  (at level 61, right associativity).
Notation "'try' body 'catch' handler" := (try_catch body handler)
  (at level 60, body at level 61, handler at level 0).

(** How an [async] function settles. *)
Inductive Outcome :=
| Resolved (r : SyncResult)
| Rejected (e : Thrown).

Definition settle (c : Completion Empty_set) : Outcome :=
  match c with
  | Normal a => match a with end
  | Returned r => Resolved r
  | Threw e => Rejected e
  end.

(* ================================================================= *)
(** ** The calls *)

(** Modelled from the spec: [mountR2Storage] is imported from [./r2] and
    its body is not embedded here.  The spec gives the mount provider the
    contract [mount(credentials) -> bool], a black box returning success or
    failure: the call answers with a boolean. *)
Definition mountR2Storage (sandbox : Sandbox) (env : MoltbotEnv) : M bool :=
  fun t =>
    let b := mount_reply sandbox env t in
    (Normal b, t ++ [EvMount b]).

Definition startProcess (sandbox : Sandbox) (cmd : string) : M Process :=
  fun t =>
    match start_reply sandbox t cmd with
    | inl e => (Threw e, t ++ [EvStart cmd (inl e)])
    | inr n =>
        let p := mkProcess n cmd in
        (Normal p, t ++ [EvStart cmd (inr p)])
    end.

(** Modelled from the spec: [waitForProcess] is imported from [./utils]
    and its body is not embedded here.  The spec describes a bounded await
    on which exceeding the timeout surfaces as an error: the call resolves,
    or rejects with the error, as the sandbox decides from the process and
    the limit. *)
Definition waitForProcess (sandbox : Sandbox) (p : Process) (timeoutMs : Z) : M unit :=
  fun t =>
    match wait_reply sandbox t p timeoutMs with
    | inl e => (Threw e, t ++ [EvWait p timeoutMs (inl e)])
    | inr u => (Normal u, t ++ [EvWait p timeoutMs (inr u)])
    end.

Definition getLogs (sandbox : Sandbox) (p : Process) : M Logs :=
  fun t =>
    match logs_reply sandbox t p with
    | inl e => (Threw e, t ++ [EvLogs p (inl e)])
    | inr l => (Normal l, t ++ [EvLogs p (inr l)])
    end.

(** [!!logs.stdout?.includes(marker)] *)
Definition stdout_includes (marker : JsString) (l : Logs) : bool :=
  match stdout l with
  | Some s => includes marker s
  | None => false
  end.

(* ================================================================= *)
(** ** Reading a trace *)

(** The command line an interaction is about. *)
Definition ev_command (e : Event) : option string :=
  match e with
  | EvMount _ => None
  | EvStart cmd _ => Some cmd
  | EvWait p _ _ => Some (proc_command p)
  | EvLogs p _ => Some (proc_command p)
  end.

Definition about (cmd : string) (e : Event) : bool :=
  match ev_command e with
  | Some c => String.eqb c cmd
  | None => false
  end.

(** Some interaction about [cmd] in the trace satisfies [f]. *)
Definition observe (cmd : string) (f : Event -> bool) (t : Trace) : bool :=
  existsb (fun e => about cmd e && f e) t.

Definition is_start (e : Event) : bool :=
  match e with EvStart _ _ => true | _ => false end.

(** The call was rejected: a command error or a timeout. *)
Definition is_rejection (e : Event) : bool :=
  match e with
  | EvStart _ (inl _) | EvWait _ _ (inl _) | EvLogs _ (inl _) => true
  | _ => false
  end.

(** [getLogs] resolved with logs that satisfy [f]. *)
Definition logs_with (f : Logs -> bool) (e : Event) : bool :=
  match e with
  | EvLogs _ (inr l) => f l
  | _ => false
  end.

(** The value a rejected call threw. *)
Definition rejection_of (e : Event) : option Thrown :=
  match e with
  | EvStart _ (inl x) | EvWait _ _ (inl x) | EvLogs _ (inl x) => Some x
  | _ => None
  end.

Definition is_set (v : option JsString) : bool :=
  match v with Some _ => true | None => false end.

(** The shape of a [SyncResult]: a success carries [lastSync] and nothing
    else; a failure carries [error] and no [lastSync]. *)
Definition well_shaped (r : SyncResult) : bool :=
  if success r
  then is_set (lastSync r) && negb (is_set (error r)) && negb (is_set (details r))
  else is_set (error r) && negb (is_set (lastSync r)).

Definition started (cmd : string) (t : Trace) : bool := observe cmd is_start t.

Definition rejected (cmd : string) (t : Trace) : bool := observe cmd is_rejection t.

(** The value a probe block leaves in its variable, read back from the
    trace: its [getLogs] resolved and the output includes the marker. *)
Definition probe_outcome (cmd : string) (marker : JsString) (t : Trace) : bool :=
  observe cmd (logs_with (stdout_includes marker)) t.

(* ================================================================= *)
(** * client/: the pure helpers of the admin page and the API client *)

Module Client.

(** ** Strings *)

(** Code units the helpers single out. *)
Definition u_amp : N := 38.
Definition u_lt : N := 60.
Definition u_gt : N := 62.
Definition u_quot : N := 34.
Definition u_apos : N := 39.
Definition u_slash : N := 47.
Definition u_hash : N := 35.
Definition u_lbrace : N := 123.
Definition u_rbrace : N := 125.

(** [s.replaceAll(c, r)] for a search string [c] of one code unit and a
    replacement without [$] patterns. *)
Definition replaceAll (c : N) (r : JsString) (s : JsString) : JsString :=
  flat_map (fun x => if N.eqb x c then r else [x]) s.

(** ** [escapeHtml] *)

Definition escapeHtml (value : JsString) : JsString :=
  replaceAll u_apos (js "&#39;")
    (replaceAll u_quot (js "&quot;")
       (replaceAll u_gt (js "&gt;")
          (replaceAll u_lt (js "&lt;")
             (replaceAll u_amp (js "&amp;") value)))).

(** What one code unit becomes. *)
Definition escape_unit (c : N) : JsString :=
  if N.eqb c u_amp then js "&amp;"
  else if N.eqb c u_lt then js "&lt;"
  else if N.eqb c u_gt then js "&gt;"
  else if N.eqb c u_quot then js "&quot;"
  else if N.eqb c u_apos then js "&#39;"
  else [c].

(** The code units that can open or close a tag or an attribute value. *)
Definition is_markup (c : N) : bool :=
  N.eqb c u_lt || N.eqb c u_gt || N.eqb c u_quot || N.eqb c u_apos.

Definition needs_escape (c : N) : bool := N.eqb c u_amp || is_markup c.

(** ** [sanitizeUrl] *)

(** Case folding of the pattern flag [i]: without the [u] flag a code unit
    at or above 128 never folds onto an ASCII letter, so only the ASCII
    letters are folded. *)
Definition fold_case (c : N) : N :=
  if ((65 <=? c) && (c <=? 90))%N then (c + 32)%N else c.

(** The string starts with the literal, case folded. *)
Fixpoint starts_with_ci (literal s : JsString) : bool :=
  match literal, s with
  | [], _ => true
  | _ :: _, [] => false
  | x :: literal', y :: s' =>
      N.eqb (fold_case x) (fold_case y) && starts_with_ci literal' s'
  end.

(** [/^(https?:\/\/|\/)/i.test(s)] *)
Definition is_http_or_rooted (s : JsString) : bool :=
  starts_with_ci (js "http://") s
  || starts_with_ci (js "https://") s
  || starts_with_ci (js "/") s.

Definition sanitizeUrl (url : JsString) : JsString :=
  let trimmed := trim url in
  if is_http_or_rooted trimmed then trimmed else js "#".

(** ** [interpolate] *)

(** [\w] *)
Definition is_word (c : N) : bool :=
  ((48 <=? c) && (c <=? 57))%N
  || ((65 <=? c) && (c <=? 90))%N
  || (c =? 95)%N
  || ((97 <=? c) && (c <=? 122))%N.

(** The longest run of word code units at the start, and what follows. *)
Fixpoint span_word (s : JsString) : JsString * JsString :=
  match s with
  | c :: s' =>
      if is_word c
      then let (key, rest) := span_word s' in (c :: key, rest)
      else ([], s)
  | [] => ([], [])
  end.

(** [\{(\w+)\}] tried right after an opening brace: the key captured and
    the text after the closing brace.  The run of word code units is taken
    whole; giving some of it back cannot help, since a closing brace is not
    a word code unit. *)
Definition match_placeholder (after_brace : JsString)
  : option (JsString * JsString) :=
  match span_word after_brace with
  | ([], _) => None
  | (key, c :: rest) =>
      if N.eqb c u_rbrace then Some (key, rest) else None
  | (_, []) => None
  end.

(** The [vars] record as the callback reads it: [None] when [vars[key]] is
    [undefined], otherwise [String(vars[key])].  The read sees inherited
    properties too: for a record written as a literal, [vars key] is set
    for [constructor], [toString] and the other names of
    [Object.prototype]. *)
Definition Vars : Type := JsString -> option JsString.

(** The replacement callback. *)
Definition substitute (vars : Vars) (key : JsString) : JsString :=
  match vars key with
  | None => u_lbrace :: key ++ [u_rbrace]
  | Some v => v
  end.

(** [template.replace(/\{(\w+)\}/g, callback)]: at each position, a match
    is replaced and the scan goes on after it; otherwise the code unit is
    copied and the scan goes on with the next one.  [fuel] bounds the
    number of steps; the length of the text is enough, each step consuming
    a code unit at least. *)
Fixpoint replace_placeholders (fuel : nat) (vars : Vars) (s : JsString)
  : JsString :=
  match fuel with
  | O => s
  | S fuel' =>
      match s with
      | [] => []
      | c :: rest =>
          if N.eqb c u_lbrace
          then
            match match_placeholder rest with
            | Some (key, rest') =>
                substitute vars key ++ replace_placeholders fuel' vars rest'
            | None => c :: replace_placeholders fuel' vars rest
            end
          else c :: replace_placeholders fuel' vars rest
      end
  end.

Definition interpolate (template : JsString) (vars : option Vars) : JsString :=
  match vars with
  | None => template
  | Some v => replace_placeholders (length template) v template
  end.

(** The keys of the placeholders the pattern matches in [s], in order: the
    scan of [replace_placeholders], keeping the keys. *)
Fixpoint placeholder_keys (fuel : nat) (s : JsString) : list JsString :=
  match fuel with
  | O => []
  | S fuel' =>
      match s with
      | [] => []
      | c :: rest =>
          if N.eqb c u_lbrace
          then
            match match_placeholder rest with
            | Some (key, rest') => key :: placeholder_keys fuel' rest'
            | None => placeholder_keys fuel' rest
            end
          else placeholder_keys fuel' rest
      end
  end.

Definition placeholders (template : JsString) : list JsString :=
  placeholder_keys (length template) template.

(** ** The stored locale *)

Inductive Locale := en | cn_jt | cn_ft | ru | es | fr | ja | ko.

(** The string a locale is in the source. *)
Definition locale_name (l : Locale) : JsString :=
  match l with
  | en => js "en"
  | cn_jt => js "cn-jt"
  | cn_ft => js "cn-ft"
  | ru => js "ru"
  | es => js "es"
  | fr => js "fr"
  | ja => js "ja"
  | ko => js "ko"
  end.

(** The initialiser of the [locale] state: [has_window] is
    [typeof window !== 'undefined'], [stored] is what
    [localStorage.getItem('adminLocale')] returns ([null] as [None]). *)
Definition initial_locale (has_window : bool) (stored : option JsString)
  : Locale :=
  if negb has_window then en
  else
    match stored with
    | None => en
    | Some s =>
        if str_eqb s (js "zh-CN") || str_eqb s (js "cn-zh") then cn_jt
        else if str_eqb s (js "cn-jt") then cn_jt
        else if str_eqb s (js "cn-ft") then cn_ft
        else if str_eqb s (js "ru") then ru
        else if str_eqb s (js "es") then es
        else if str_eqb s (js "fr") then fr
        else if str_eqb s (js "ja") then ja
        else if str_eqb s (js "ko") then ko
        else if str_eqb s (js "en") then en
        else en
    end.

(** What the effect [localStorage.setItem('adminLocale', locale)] stores. *)
Definition stored_locale (l : Locale) : option JsString := Some (locale_name l).

(** ** The block loop of [renderMarkdown] *)

(** [text.split('\n')] *)
Fixpoint split_lines (text : JsString) : list JsString :=
  match text with
  | [] => [[]]
  | c :: text' =>
      if N.eqb c 10 then [] :: split_lines text'
      else
        match split_lines text' with
        | line :: lines => (c :: line) :: lines
        | [] => [[c]]
        end
  end.

(** The longest prefix whose code units satisfy [p], and what follows. *)
Fixpoint span (p : N -> bool) (s : JsString) : JsString * JsString :=
  match s with
  | c :: s' =>
      if p c then let (taken, rest) := span p s' in (c :: taken, rest)
      else ([], s)
  | [] => ([], [])
  end.

(** The code units [.] does not match. *)
Definition is_line_terminator (c : N) : bool :=
  N.eqb c 10 || N.eqb c 13 || N.eqb c 8232 || N.eqb c 8233.

(** The tail shared by the two line patterns, [\s+] followed by a group of
    [.] repeated up to the end [$]: the text the group captures.  The white
    space is taken whole; what follows starts with a code unit that is not
    white space, so the group has to reach the end, which it does when no
    line terminator is in the way. *)
Definition rest_of_line (s : JsString) : option JsString :=
  match span is_white_space s with
  | ([], _) => None
  | (_, content) =>
      if forallb (fun c => negb (is_line_terminator c)) content
      then Some content else None
  end.

(** The heading pattern of the source, one to six [#] at the start of the
    line and then the shared tail: the level and the heading text. *)
Definition heading_match (line : JsString) : option (nat * JsString) :=
  let (hashes, after) := span (N.eqb u_hash) line in
  let level := length hashes in
  if (1 <=? level)%nat && (level <=? 6)%nat
  then option_map (pair level) (rest_of_line after)
  else None.

(** The list pattern of the source, [-] or [*] at the start of the line
    and then the shared tail: the item text. *)
Definition list_match (line : JsString) : option JsString :=
  match line with
  | c :: after =>
      if N.eqb c 45 || N.eqb c 42 then rest_of_line after else None
  | [] => None
  end.

(** [`${level}`] for a level from 1 to 6. *)
Definition level_digit (level : nat) : JsString := [(48 + N.of_nat level)%N].

(** The state of the loop: the blocks pushed so far and [inList]. *)
Definition LoopState : Type := (list JsString * bool)%type.

(** [if (inList) { blocks.push('</ul>'); inList = false }] *)
Definition close_list (st : LoopState) : LoopState :=
  let (blocks, inList) := st in
  if inList then (blocks ++ [js "</ul>"], false) else (blocks, inList).

(** One turn of [for (const line of lines)]; [formatInline] is the inline
    formatter of the source, left open. *)
Definition block_step (formatInline : JsString -> JsString)
  (st : LoopState) (line : JsString) : LoopState :=
  let trimmed := trim line in
  match trimmed with
  | [] => close_list st
  | _ :: _ =>
      match heading_match line with
      | Some (level, content) =>
          let (blocks, _) := close_list st in
          (blocks ++ [js "<h" ++ level_digit level ++ js ">"
                      ++ formatInline content
                      ++ js "</h" ++ level_digit level ++ js ">"],
           false)
      | None =>
          match list_match line with
          | Some content =>
              let (blocks, inList) := st in
              let blocks' := if inList then blocks else blocks ++ [js "<ul>"] in
              (blocks' ++ [js "<li>" ++ formatInline content ++ js "</li>"],
               true)
          | None =>
              let (blocks, _) := close_list st in
              (blocks ++ [js "<p>" ++ formatInline line ++ js "</p>"], false)
          end
      end
  end.

(** The [blocks] array when the loop and the closing test are done. *)
Definition render_blocks (formatInline : JsString -> JsString)
  (text : JsString) : list JsString :=
  fst (close_list
         (fold_left (block_step formatInline) (split_lines text) ([], false))).

Inductive BlockKind := ListOpen | ListClose | ListItem | OtherBlock.

Definition block_kind (b : JsString) : BlockKind :=
  if str_eqb b (js "<ul>") then ListOpen
  else if str_eqb b (js "</ul>") then ListClose
  else if starts_with (js "<li>") b then ListItem
  else OtherBlock.

(** Reading the blocks in order with a list open or not: items only inside
    a list, headings and paragraphs only outside, no list opened inside a
    list, none closed outside; the result says whether a list is open at
    the end. *)
Fixpoint nesting (open : bool) (blocks : list JsString) : option bool :=
  match blocks with
  | [] => Some open
  | b :: blocks' =>
      match block_kind b, open with
      | ListOpen, false => nesting true blocks'
      | ListClose, true => nesting false blocks'
      | ListItem, true => nesting true blocks'
      | OtherBlock, false => nesting false blocks'
      | _, _ => None
      end
  end.

(** ** client/api.ts: [apiRequest] *)

(** What the promise of [apiRequest] can reject with: the two errors the
    function constructs, a [TypeError] raised while it evaluates
    [data.error] or builds the message, and what [fetch] or [json()]
    rejected with. *)
Inductive ApiError (Reason : Type) :=
| AuthError (message : JsString)
| PlainError (message : JsString)
| TypeError
| PassedOn (reason : Reason).
Arguments AuthError {Reason} message.
Arguments PlainError {Reason} message.
Arguments TypeError {Reason}.
Arguments PassedOn {Reason} reason.

(** A number of the body.  The code does not compute with numbers: all it
    can observe of one is whether it is zero, which decides its truthiness,
    and its [String()]; a number is given by these two. *)
Record Number := mkNumber {
  is_zero : bool;
  number_text : JsString
}.

(** What [response.json()] resolves with: a value built by [JSON.parse].
    An object is given by its members in the order of the text. *)
#[warnings="-register-all"] Inductive Json :=
| JNull
| JBool (b : bool)
| JNumber (n : Number)
| JString (s : JsString)
| JArray (items : list Json)
| JObject (members : list (JsString * Json)).

(** The own property [key] of a parsed object: of two members with the same
    name the later one wins; [None] is [undefined]. *)
Fixpoint member (key : JsString) (members : list (JsString * Json))
  : option Json :=
  match members with
  | [] => None
  | (k, v) :: rest =>
      match member key rest with
      | Some later => Some later
      | None => if str_eqb k key then Some v else None
      end
  end.

(** [data.error]: reading a property of [null] throws a [TypeError]
    ([None]); a boolean, a number, a string and an array have no such
    property, nor has an object without a member of that name
    ([Some None], that is [undefined]). *)
Definition read_error (data : Json) : option (option Json) :=
  match data with
  | JNull => None
  | JObject members => Some (member (js "error") members)
  | JBool _ | JNumber _ | JString _ | JArray _ => Some None
  end.

(** Truthiness of a parsed value. *)
Definition truthy_json (v : Json) : bool :=
  match v with
  | JNull => false
  | JBool b => b
  | JNumber n => negb (is_zero n)
  | JString [] => false
  | JString (_ :: _) => true
  | JArray _ | JObject _ => true
  end.

(** [String(v)], the conversion [new Error(v)] applies to its argument.  An
    array is joined with commas, [null] items giving the empty string.  An
    object gives [[object Object]], unless it has a member [toString]: that
    member is not a function, so the conversion falls back to [valueOf],
    which returns the object, and throws a [TypeError] ([None]). *)
Fixpoint to_string (v : Json) : option JsString :=
  match v with
  | JNull => Some (js "null")
  | JBool true => Some (js "true")
  | JBool false => Some (js "false")
  | JNumber n => Some (number_text n)
  | JString s => Some s
  | JArray items =>
      (fix join (l : list Json) : option JsString :=
         match l with
         | [] => Some []
         | x :: rest =>
             match (match x with JNull => Some [] | _ => to_string x end) with
             | None => None
             | Some first =>
                 match rest with
                 | [] => Some first
                 | _ :: _ =>
                     match join rest with
                     | None => None
                     | Some others => Some (first ++ 44%N :: others)
                     end
                 end
             end
         end) items
  | JObject members =>
      match member (js "toString") members with
      | Some _ => None
      | None => Some (js "[object Object]")
      end
  end.

(** The response as [apiRequest] uses it; [response.json()] resolves with
    the parsed body or rejects. *)
Record Response (Reason : Type) := mkResponse {
  status : N;
  ok : bool;
  json : Reason + Json
}.
Arguments mkResponse {Reason} _ _ _.
Arguments status {Reason} _.
Arguments ok {Reason} _.
Arguments json {Reason} _.

(** [`${n}`] for a non-negative integer. *)
Definition decimal (n : N) : JsString :=
  js (NilZero.string_of_uint (N.to_uint n)).

(** [`API error: ${response.status}`] *)
Definition status_message (st : N) : JsString := js "API error: " ++ decimal st.

(** The message of [new Error(data.error || `API error: ${response.status}`)];
    [None] when evaluating it throws a [TypeError]. *)
Definition failure_message (data : Json) (st : N) : option JsString :=
  match read_error data with
  | None => None
  | Some None => Some (status_message st)
  | Some (Some e) => if truthy_json e then to_string e else Some (status_message st)
  end.

(** [apiRequest], from what [fetch] settles with on. *)
Definition apiRequest {Reason} (fetched : Reason + Response Reason)
  : ApiError Reason + Json :=
  match fetched with
  | inl reason => inl (PassedOn reason)
  | inr response =>
      if N.eqb (status response) 401
      then inl (AuthError (js "Unauthorized - please log in via Cloudflare Access"))
      else
        match json response with
        | inl reason => inl (PassedOn reason)
        | inr data =>
            if negb (ok response)
            then
              match failure_message data (status response) with
              | Some message => inl (PlainError message)
              | None => inl TypeError
              end
            else inr data
        end
  end.

(** ** The payload of [saveAiConfig] *)

(** The own properties of a record of the source, in the order they were
    added. *)
Definition Entries (X : Type) : Type := list (JsString * X).

(** No name occurs twice, as in what [Object.entries] returns. *)
Fixpoint distinct_keys {X} (entries : Entries X) : bool :=
  match entries with
  | [] => true
  | (k, _) :: rest =>
      negb (existsb (fun e => str_eqb (fst e) k) rest) && distinct_keys rest
  end.

(** Adding or overwriting an own property. *)
Fixpoint set_entry {X} (entries : Entries X) (key : JsString) (v : X)
  : Entries X :=
  match entries with
  | [] => [(key, v)]
  | (k, x) :: rest =>
      if str_eqb k key then (k, v) :: rest else (k, x) :: set_entry rest key v
  end.

(** The update record while it is filled: its own properties, whose values
    are strings or [null] ([None]), and whether [Object.prototype] is still
    its prototype. *)
Record UpdateRecord := mkUpdateRecord {
  own : Entries (option JsString);
  has_prototype : bool
}.

(** [{}] *)
Definition empty_record : UpdateRecord :=
  {| own := []; has_prototype := true |}.

Definition proto_key : JsString := js "__proto__".

Definition has_own (record : UpdateRecord) (key : JsString) : bool :=
  existsb (fun e => str_eqb (fst e) key) (own record).

(** [record[key] = v].  The name [__proto__] is special as long as the
    record inherits from [Object.prototype] and has no own property of that
    name: the assignment then reaches the inherited setter, which removes
    the prototype when [v] is [null] and ignores a string, and no property
    is added.  Every other inherited property is writable data, so
    assigning adds or overwrites an own property. *)
Definition assign (record : UpdateRecord) (key : JsString)
  (v : option JsString) : UpdateRecord :=
  if str_eqb key proto_key && has_prototype record && negb (has_own record key)
  then
    match v with
    | None => {| own := own record; has_prototype := false |}
    | Some _ => record
    end
  else {| own := set_entry (own record) key v;
          has_prototype := has_prototype record |}.

(** What reading [drafts[key]] gives: [undefined], a string, or an inherited
    property of [Object.prototype], which is a function or an object. *)
Inductive Draft :=
| NoDraft
| DraftText (s : JsString)
| Inherited.

(** [(drafts[key] ?? '').trim()] and then [value === '' ? null : value].
    An inherited property has no method [trim] and the call throws a
    [TypeError]: the outer [None]. *)
Definition draft_value (drafts : JsString -> Draft) (key : JsString)
  : option (option JsString) :=
  match drafts key with
  | Inherited => None
  | NoDraft => Some None
  | DraftText s =>
      match trim s with
      | [] => Some None
      | c :: value => Some (Some (c :: value))
      end
  end.

(** One call of the callback passed to [forEach]; [None] once a call has
    thrown. *)
Definition update_step (drafts : JsString -> Draft)
  (update : option UpdateRecord) (entry : JsString * bool)
  : option UpdateRecord :=
  let (key, is_dirty) := entry in
  if negb is_dirty then update
  else
    match update, draft_value drafts key with
    | Some record, Some v => Some (assign record key v)
    | _, _ => None
    end.

(** The loop [Object.entries(dirty).forEach(...)] that fills the update
    record, written twice in the source: for the base URLs and for the API
    keys.  [None] when it throws. *)
Definition collect_updates (dirty : Entries bool)
  (drafts : JsString -> Draft) : option UpdateRecord :=
  fold_left (update_step drafts) dirty (Some empty_record).

Inductive Provider := anthropic | deepseek.
Inductive Model := deepseek_chat | deepseek_reasoner.

(** [AiEnvConfigUpdate]; a field that is not set is [None]. *)
Record AiEnvConfigUpdate := mkUpdate {
  baseUrls : option UpdateRecord;
  apiKeys : option UpdateRecord;
  primaryProvider : option Provider;
  primaryModel : option Model
}.

(** The state [saveAiConfig] reads. *)
Record AiForm := mkForm {
  baseUrlDirty : Entries bool;
  baseUrlDrafts : JsString -> Draft;
  apiKeyDirty : Entries bool;
  apiKeyDrafts : JsString -> Draft;
  aiPrimaryProviderDirty : bool;
  aiPrimaryProvider : Provider;
  aiPrimaryModelDirty : bool;
  aiPrimaryModel : Model
}.

(** [if (Object.keys(update).length > 0) payload.field = update] *)
Definition when_not_empty (update : UpdateRecord) : option UpdateRecord :=
  match own update with
  | [] => None
  | _ :: _ => Some update
  end.

(** The payload [saveAiConfig] hands to [saveAiEnvConfig]; [None] when
    building it throws, in which case nothing is sent. *)
Definition build_payload (form : AiForm) : option AiEnvConfigUpdate :=
  match collect_updates (baseUrlDirty form) (baseUrlDrafts form) with
  | None => None
  | Some baseUrlsUpdate =>
      match collect_updates (apiKeyDirty form) (apiKeyDrafts form) with
      | None => None
      | Some apiKeysUpdate =>
          Some {| baseUrls := when_not_empty baseUrlsUpdate;
                  apiKeys := when_not_empty apiKeysUpdate;
                  primaryProvider :=
                    if aiPrimaryProviderDirty form
                    then Some (aiPrimaryProvider form) else None;
                  primaryModel :=
                    if aiPrimaryModelDirty form
                    then Some (aiPrimaryModel form) else None |}
      end
  end.

(** A value fit to be sent: [null], or text that is not empty and has no
    white space around it. *)
Definition clean_value (v : option JsString) : Prop :=
  match v with
  | None => True
  | Some s => s <> [] /\ trim s = s
  end.

(** ** Sample inputs *)

Definition nl : JsString := [10%N].

(** A [vars] record with [name] and [count]; [loop] holds a placeholder.
    As every record written as a literal it inherits [constructor] from
    [Object.prototype]. *)
Definition sample_vars : Vars :=
  fun key =>
    if str_eqb key (js "name") then Some (js "Ann")
    else if str_eqb key (js "count") then Some (js "3")
    else if str_eqb key (js "loop") then Some (js "{name}")
    else if str_eqb key (js "constructor")
    then Some (js "function Object() { [native code] }")
    else None.

(** A gateway error page: status 502 and a body that is not JSON. *)
Definition bad_gateway : Response JsString :=
  mkResponse 502 false (inl (js "Unexpected token < in JSON")).

(** Failed responses with a body that parsed: an empty object, [null], an
    object whose [error] is text, and one whose [error] is an object. *)
Definition not_found : Response JsString :=
  mkResponse 404 false (inr (JObject [])).

Definition null_body : Response JsString :=
  mkResponse 500 false (inr JNull).

Definition quota_exceeded : Response JsString :=
  mkResponse 429 false
    (inr (JObject [(js "error", JString (js "Quota exceeded"))])).

Definition nested_error : Response JsString :=
  mkResponse 400 false
    (inr (JObject [(js "error", JObject [(js "code", JString (js "E1"))])])).

(** A draft record in which the base URL of one provider was edited and the
    one of another was blanked; reading any other name gives what
    [Object.prototype] holds under it, if anything. *)
Definition sample_drafts : JsString -> Draft :=
  fun key =>
    if str_eqb key (js "ANTHROPIC_BASE_URL")
    then DraftText (js "  https://proxy.example/v1 ")
    else if str_eqb key (js "OPENAI_BASE_URL") then DraftText (js "   ")
    else if str_eqb key (js "DEEPSEEK_BASE_URL")
    then DraftText (js "https://api.deepseek.com")
    else if str_eqb key (js "constructor") || str_eqb key proto_key
    then Inherited
    else NoDraft.

(** A form in which two base URLs were changed and a third was left
    alone. *)
Definition sample_form : AiForm :=
  {| baseUrlDirty :=
       [ (js "ANTHROPIC_BASE_URL", true); (js "OPENAI_BASE_URL", true);
         (js "DEEPSEEK_BASE_URL", false) ];
     baseUrlDrafts := sample_drafts;
     apiKeyDirty := [];
     apiKeyDrafts := fun _ => NoDraft;
     aiPrimaryProviderDirty := false;
     aiPrimaryProvider := anthropic;
     aiPrimaryModelDirty := true;
     aiPrimaryModel := deepseek_reasoner |}.

(** The only base URL changed is one named [__proto__], and it was
    blanked. *)
Definition proto_form : AiForm :=
  {| baseUrlDirty := [ (proto_key, true) ];
     baseUrlDrafts := fun key =>
       if str_eqb key proto_key then DraftText [] else NoDraft;
     apiKeyDirty := [];
     apiKeyDrafts := fun _ => NoDraft;
     aiPrimaryProviderDirty := false;
     aiPrimaryProvider := anthropic;
     aiPrimaryModelDirty := false;
     aiPrimaryModel := deepseek_chat |}.

End Client.

(* ================================================================= *)
(** * gateway/sync.ts: [syncToR2] *)

(* ================================================================= *)
(** ** The function *)

Section Sync.

(** [R2_MOUNT_PATH] is imported from [../config]; its value is left open,
    and the development holds for every mount path. *)
Variable R2_MOUNT_PATH : string.

Definition r2SyncCmd : string :=
  ("test -f " ++ R2_MOUNT_PATH ++ "/.last-sync && echo " ++ dq ++ "r2" ++ dq)%string.

Definition localSyncCmd : string :=
  ("test -f /root/.clawdbot/.last-sync && echo " ++ dq ++ "local" ++ dq)%string.

Definition userCmd : string :=
  ("test -f /root/clawd/USER.md && echo " ++ dq ++ "user" ++ dq)%string.

Definition soulCmd : string :=
  ("test -f /root/clawd/SOUL.md && echo " ++ dq ++ "soul" ++ dq)%string.

Definition memoryCmd : string :=
  ("test -f /root/clawd/MEMORY.md && echo " ++ dq ++ "memory" ++ dq)%string.

Definition restoreCmd : string :=
  ("set -e; mkdir -p /root/.clawdbot /root/clawd/skills /root/clawd; if [ -d "
   ++ R2_MOUNT_PATH ++ "/clawdbot ]; then rsync -r --no-times --delete "
   ++ R2_MOUNT_PATH ++ "/clawdbot/ /root/.clawdbot/; fi; if [ -d "
   ++ R2_MOUNT_PATH ++ "/skills ]; then rsync -r --no-times --delete "
   ++ R2_MOUNT_PATH ++ "/skills/ /root/clawd/skills/; fi; if [ -d "
   ++ R2_MOUNT_PATH ++ "/workspace-core ]; then rsync -r --no-times --delete --exclude='/.git/' --exclude='/.git/**' --exclude='/skills/' --exclude='/skills/**' --exclude='/node_modules/' --exclude='/node_modules/**' "
   ++ R2_MOUNT_PATH ++ "/workspace-core/ /root/clawd/; fi; cp -f "
   ++ R2_MOUNT_PATH ++ "/.last-sync /root/.clawdbot/.last-sync")%string.

Definition checkCmd : string :=
  ("test -f /root/.clawdbot/clawdbot.json && echo " ++ dq ++ "ok" ++ dq)%string.

Definition syncCmd : string :=
  ("rsync -r --no-times --delete --exclude='*.lock' --exclude='*.log' --exclude='*.tmp' /root/.clawdbot/ "
   ++ R2_MOUNT_PATH ++ "/clawdbot/ && rsync -r --no-times --delete /root/clawd/skills/ "
   ++ R2_MOUNT_PATH ++ "/skills/ && rsync -r --no-times --delete --exclude='/.git/' --exclude='/.git/**' --exclude='/skills/' --exclude='/skills/**' --exclude='/node_modules/' --exclude='/node_modules/**' /root/clawd/ "
   ++ R2_MOUNT_PATH ++ "/workspace-core/ && date -Iseconds > "
   ++ R2_MOUNT_PATH ++ "/.last-sync")%string.

Definition timestampCmd : string :=
  ("cat " ++ R2_MOUNT_PATH ++ "/.last-sync")%string.

Definition syncToR2 (sandbox : Sandbox) (env : MoltbotEnv) : M Empty_set :=
  if negb (truthy (R2_ACCESS_KEY_ID env))
     || negb (truthy (R2_SECRET_ACCESS_KEY env))
     || negb (truthy (CF_ACCOUNT_ID env))
  then return_ {| success := false; lastSync := None;
                  error := Some (js "R2 storage is not configured"); details := None |}
  else
  mounted <- mountR2Storage sandbox env ;;
  if negb mounted
  then return_ {| success := false; lastSync := None;
                  error := Some (js "Failed to mount R2 storage"); details := None |}
  else
  r2HasSync <-
    (try (r2SyncProc <- startProcess sandbox r2SyncCmd ;;
          waitForProcess sandbox r2SyncProc 5000 ;;
          r2SyncLogs <- getLogs sandbox r2SyncProc ;;
          pure (stdout_includes (js "r2") r2SyncLogs))
     catch (fun _ => pure false)) ;;
  localHasSync <-
    (try (localSyncProc <- startProcess sandbox localSyncCmd ;;
          waitForProcess sandbox localSyncProc 5000 ;;
          localSyncLogs <- getLogs sandbox localSyncProc ;;
          pure (stdout_includes (js "local") localSyncLogs))
     catch (fun _ => pure false)) ;;
  localHasUser <-
    (try (userProc <- startProcess sandbox userCmd ;;
          waitForProcess sandbox userProc 5000 ;;
          userLogs <- getLogs sandbox userProc ;;
          pure (stdout_includes (js "user") userLogs))
     catch (fun _ => pure false)) ;;
  localHasSoul <-
    (try (soulProc <- startProcess sandbox soulCmd ;;
          waitForProcess sandbox soulProc 5000 ;;
          soulLogs <- getLogs sandbox soulProc ;;
          pure (stdout_includes (js "soul") soulLogs))
     catch (fun _ => pure false)) ;;
  localHasMemory <-
    (try (memoryProc <- startProcess sandbox memoryCmd ;;
          waitForProcess sandbox memoryProc 5000 ;;
          memoryLogs <- getLogs sandbox memoryProc ;;
          pure (stdout_includes (js "memory") memoryLogs))
     catch (fun _ => pure false)) ;;
  (if r2HasSync
      && (negb localHasSync || negb localHasUser || negb localHasSoul
          || negb localHasMemory)
   then
     try (restoreProc <- startProcess sandbox restoreCmd ;;
          waitForProcess sandbox restoreProc 30000)
     catch (fun err =>
       return_ {| success := false; lastSync := None;
                  error := Some (js "Restore failed");
                  details := Some (error_message err) |})
   else pure tt) ;;
  (try (checkProc <- startProcess sandbox checkCmd ;;
        waitForProcess sandbox checkProc 5000 ;;
        checkLogs <- getLogs sandbox checkProc ;;
        if negb (stdout_includes (js "ok") checkLogs)
        then return_ {| success := false; lastSync := None;
                        error := Some (js "Sync aborted: source missing clawdbot.json");
                        details := Some (js "The local config directory is missing critical files. This could indicate corruption or an incomplete setup.") |}
        else pure tt)
   catch (fun err =>
     return_ {| success := false; lastSync := None;
                error := Some (js "Failed to verify source files");
                details := Some (error_message err) |})) ;;
  try (proc <- startProcess sandbox syncCmd ;;
       waitForProcess sandbox proc 30000 ;;
       timestampProc <- startProcess sandbox timestampCmd ;;
       waitForProcess sandbox timestampProc 5000 ;;
       timestampLogs <- getLogs sandbox timestampProc ;;
       let lastSync_ := option_map trim (stdout timestampLogs) in
       if truthy_and_dated lastSync_
       then return_ {| success := true; lastSync := lastSync_;
                       error := None; details := None |}
       else
         logs <- getLogs sandbox proc ;;
         return_ {| success := false; lastSync := None;
                    error := Some (js "Sync failed");
                    details := js_or (js_or (stderr logs) (stdout logs))
                                     (Some (js "No timestamp file created")) |})
  catch (fun err =>
    return_ {| success := false; lastSync := None;
               error := Some (js "Sync error");
               details := Some (error_message err) |}).

(** One call of [syncToR2]: how the promise settles, and the interactions
    it made, in order. *)
Definition run (sandbox : Sandbox) (env : MoltbotEnv) : Outcome * Trace :=
  let (c, t) := syncToR2 sandbox env [] in (settle c, t).

Definition result_of (sandbox : Sandbox) (env : MoltbotEnv) : Outcome :=
  fst (run sandbox env).

Definition trace_of (sandbox : Sandbox) (env : MoltbotEnv) : Trace :=
  snd (run sandbox env).


(** The steps of one call, as read from its trace. *)
Definition restore_executed (t : Trace) : bool := started restoreCmd t.
Definition guard_executed (t : Trace) : bool := started checkCmd t.
Definition push_executed (t : Trace) : bool := started syncCmd t.

(** The guard's check ran to the end and did not print its marker. *)
Definition guard_found_missing (t : Trace) : bool :=
  observe checkCmd (logs_with (fun l => negb (stdout_includes (js "ok") l))) t.

(** The five probe variables, read back from the trace. *)
Definition r2HasSync (t : Trace) : bool := probe_outcome r2SyncCmd (js "r2") t.
Definition localHasSync (t : Trace) : bool := probe_outcome localSyncCmd (js "local") t.
Definition localHasUser (t : Trace) : bool := probe_outcome userCmd (js "user") t.
Definition localHasSoul (t : Trace) : bool := probe_outcome soulCmd (js "soul") t.
Definition localHasMemory (t : Trace) : bool := probe_outcome memoryCmd (js "memory") t.

(** The results the function can return. *)
Definition not_configured : SyncResult :=
  {| success := false; lastSync := None;
     error := Some (js "R2 storage is not configured"); details := None |}.

Definition mount_failed : SyncResult :=
  {| success := false; lastSync := None;
     error := Some (js "Failed to mount R2 storage"); details := None |}.

Definition restore_failed (err : Thrown) : SyncResult :=
  {| success := false; lastSync := None;
     error := Some (js "Restore failed"); details := Some (error_message err) |}.

Definition source_missing : SyncResult :=
  {| success := false; lastSync := None;
     error := Some (js "Sync aborted: source missing clawdbot.json");
     details := Some (js "The local config directory is missing critical files. This could indicate corruption or an incomplete setup.") |}.

Definition verify_failed (err : Thrown) : SyncResult :=
  {| success := false; lastSync := None;
     error := Some (js "Failed to verify source files");
     details := Some (error_message err) |}.

Definition synced (marker : option JsString) : SyncResult :=
  {| success := true; lastSync := marker; error := None; details := None |}.

Definition sync_failed (logs : Logs) : SyncResult :=
  {| success := false; lastSync := None;
     error := Some (js "Sync failed");
     details := js_or (js_or (stderr logs) (stdout logs))
                      (Some (js "No timestamp file created")) |}.

Definition sync_error (err : Thrown) : SyncResult :=
  {| success := false; lastSync := None;
     error := Some (js "Sync error"); details := Some (error_message err) |}.

Definition credentials_missing (env : MoltbotEnv) : bool :=
  negb (truthy (R2_ACCESS_KEY_ID env))
  || negb (truthy (R2_SECRET_ACCESS_KEY env))
  || negb (truthy (CF_ACCOUNT_ID env)).

(* ================================================================= *)
(** ** The shape of every execution *)

(** The interactions of one probe block and the value it leaves. *)
Inductive ProbeRun (cmd : string) (marker : JsString) : Trace -> bool -> Prop :=
| ProbeStartThrew e :
    ProbeRun cmd marker [EvStart cmd (inl e)] false
| ProbeWaitThrew n e :
    ProbeRun cmd marker
      [EvStart cmd (inr (mkProcess n cmd));
       EvWait (mkProcess n cmd) 5000 (inl e)] false
| ProbeLogsThrew n e :
    ProbeRun cmd marker
      [EvStart cmd (inr (mkProcess n cmd));
       EvWait (mkProcess n cmd) 5000 (inr tt);
       EvLogs (mkProcess n cmd) (inl e)] false
| ProbeAnswered n l :
    ProbeRun cmd marker
      [EvStart cmd (inr (mkProcess n cmd));
       EvWait (mkProcess n cmd) 5000 (inr tt);
       EvLogs (mkProcess n cmd) (inr l)] (stdout_includes marker l).

(** The restore step: skipped, aborted (with the result returned) or done. *)
Inductive RestoreRun : bool -> Trace -> option SyncResult -> Prop :=
| RestoreSkipped :
    RestoreRun false [] None
| RestoreStartThrew e :
    RestoreRun true [EvStart restoreCmd (inl e)] (Some (restore_failed e))
| RestoreWaitThrew n e :
    RestoreRun true
      [EvStart restoreCmd (inr (mkProcess n restoreCmd));
       EvWait (mkProcess n restoreCmd) 30000 (inl e)]
      (Some (restore_failed e))
| RestoreDone n :
    RestoreRun true
      [EvStart restoreCmd (inr (mkProcess n restoreCmd));
       EvWait (mkProcess n restoreCmd) 30000 (inr tt)] None.

(** The integrity guard: aborted (with the result returned) or passed. *)
Inductive GuardRun : Trace -> option SyncResult -> Prop :=
| GuardStartThrew e :
    GuardRun [EvStart checkCmd (inl e)] (Some (verify_failed e))
| GuardWaitThrew n e :
    GuardRun
      [EvStart checkCmd (inr (mkProcess n checkCmd));
       EvWait (mkProcess n checkCmd) 5000 (inl e)]
      (Some (verify_failed e))
| GuardLogsThrew n e :
    GuardRun
      [EvStart checkCmd (inr (mkProcess n checkCmd));
       EvWait (mkProcess n checkCmd) 5000 (inr tt);
       EvLogs (mkProcess n checkCmd) (inl e)]
      (Some (verify_failed e))
| GuardMissing n l :
    stdout_includes (js "ok") l = false ->
    GuardRun
      [EvStart checkCmd (inr (mkProcess n checkCmd));
       EvWait (mkProcess n checkCmd) 5000 (inr tt);
       EvLogs (mkProcess n checkCmd) (inr l)]
      (Some source_missing)
| GuardPassed n l :
    stdout_includes (js "ok") l = true ->
    GuardRun
      [EvStart checkCmd (inr (mkProcess n checkCmd));
       EvWait (mkProcess n checkCmd) 5000 (inr tt);
       EvLogs (mkProcess n checkCmd) (inr l)]
      None.

(** The push and its confirmation: always ends in a result. *)
Inductive PushRun : Trace -> SyncResult -> Prop :=
| PushStartThrew e :
    PushRun [EvStart syncCmd (inl e)] (sync_error e)
| PushWaitThrew n e :
    PushRun
      [EvStart syncCmd (inr (mkProcess n syncCmd));
       EvWait (mkProcess n syncCmd) 30000 (inl e)]
      (sync_error e)
| MarkerStartThrew n e :
    PushRun
      [EvStart syncCmd (inr (mkProcess n syncCmd));
       EvWait (mkProcess n syncCmd) 30000 (inr tt);
       EvStart timestampCmd (inl e)]
      (sync_error e)
| MarkerWaitThrew n m e :
    PushRun
      [EvStart syncCmd (inr (mkProcess n syncCmd));
       EvWait (mkProcess n syncCmd) 30000 (inr tt);
       EvStart timestampCmd (inr (mkProcess m timestampCmd));
       EvWait (mkProcess m timestampCmd) 5000 (inl e)]
      (sync_error e)
| MarkerLogsThrew n m e :
    PushRun
      [EvStart syncCmd (inr (mkProcess n syncCmd));
       EvWait (mkProcess n syncCmd) 30000 (inr tt);
       EvStart timestampCmd (inr (mkProcess m timestampCmd));
       EvWait (mkProcess m timestampCmd) 5000 (inr tt);
       EvLogs (mkProcess m timestampCmd) (inl e)]
      (sync_error e)
| MarkerConfirmed n m l :
    truthy_and_dated (option_map trim (stdout l)) = true ->
    PushRun
      [EvStart syncCmd (inr (mkProcess n syncCmd));
       EvWait (mkProcess n syncCmd) 30000 (inr tt);
       EvStart timestampCmd (inr (mkProcess m timestampCmd));
       EvWait (mkProcess m timestampCmd) 5000 (inr tt);
       EvLogs (mkProcess m timestampCmd) (inr l)]
      (synced (option_map trim (stdout l)))
| MarkerRejectedLogsThrew n m l e :
    truthy_and_dated (option_map trim (stdout l)) = false ->
    PushRun
      [EvStart syncCmd (inr (mkProcess n syncCmd));
       EvWait (mkProcess n syncCmd) 30000 (inr tt);
       EvStart timestampCmd (inr (mkProcess m timestampCmd));
       EvWait (mkProcess m timestampCmd) 5000 (inr tt);
       EvLogs (mkProcess m timestampCmd) (inr l);
       EvLogs (mkProcess n syncCmd) (inl e)]
      (sync_error e)
| MarkerRejected n m l pl :
    truthy_and_dated (option_map trim (stdout l)) = false ->
    PushRun
      [EvStart syncCmd (inr (mkProcess n syncCmd));
       EvWait (mkProcess n syncCmd) 30000 (inr tt);
       EvStart timestampCmd (inr (mkProcess m timestampCmd));
       EvWait (mkProcess m timestampCmd) 5000 (inr tt);
       EvLogs (mkProcess m timestampCmd) (inr l);
       EvLogs (mkProcess n syncCmd) (inr pl)]
      (sync_failed pl).

(** What follows the probes, given the value of the restore condition. *)
Inductive TailRun (need : bool) : Trace -> SyncResult -> Prop :=
| TailRestoreAborted rs r :
    RestoreRun need rs (Some r) ->
    TailRun need rs r
| TailGuardAborted rs gs r :
    RestoreRun need rs None ->
    GuardRun gs (Some r) ->
    TailRun need (rs ++ gs) r
| TailPushed rs gs ps r :
    RestoreRun need rs None ->
    GuardRun gs None ->
    PushRun ps r ->
    TailRun need (rs ++ gs ++ ps) r.

(** The restore condition of the source, on the five probe variables. *)
Definition restore_needed (r2 loc user soul memory : bool) : bool :=
  r2 && (negb loc || negb user || negb soul || negb memory).

(** A whole call: the interactions in order and the result returned. *)
Inductive Execution (sandbox : Sandbox) (env : MoltbotEnv) : Trace -> SyncResult -> Prop :=
| ExNotConfigured :
    credentials_missing env = true ->
    Execution sandbox env [] not_configured
| ExMountFailed :
    credentials_missing env = false ->
    mount_reply sandbox env [] = false ->
    Execution sandbox env [EvMount false] mount_failed
| ExProbed b1 b2 b3 b4 b5 p1 p2 p3 p4 p5 tl r :
    credentials_missing env = false ->
    mount_reply sandbox env [] = true ->
    ProbeRun r2SyncCmd (js "r2") p1 b1 ->
    ProbeRun localSyncCmd (js "local") p2 b2 ->
    ProbeRun userCmd (js "user") p3 b3 ->
    ProbeRun soulCmd (js "soul") p4 b4 ->
    ProbeRun memoryCmd (js "memory") p5 b5 ->
    TailRun (restore_needed b1 b2 b3 b4 b5) tl r ->
    Execution sandbox env (EvMount true :: p1 ++ p2 ++ p3 ++ p4 ++ p5 ++ tl) r.

(* ================================================================= *)
(** ** The blocks of the function, one at a time *)

(** One probe block, as written five times in the source. *)
Definition probe (sandbox : Sandbox) (cmd : string) (marker : JsString) : M bool :=
  try (p <- startProcess sandbox cmd ;;
       waitForProcess sandbox p 5000 ;;
       l <- getLogs sandbox p ;;
       pure (stdout_includes marker l))
  catch (fun _ => pure false).

Definition restore_block (sandbox : Sandbox) (need : bool) : M unit :=
  if need
  then
    try (restoreProc <- startProcess sandbox restoreCmd ;;
         waitForProcess sandbox restoreProc 30000)
    catch (fun err => return_ (restore_failed err))
  else pure tt.

Definition guard_block (sandbox : Sandbox) : M unit :=
  try (checkProc <- startProcess sandbox checkCmd ;;
       waitForProcess sandbox checkProc 5000 ;;
       checkLogs <- getLogs sandbox checkProc ;;
       if negb (stdout_includes (js "ok") checkLogs)
       then return_ source_missing
       else pure tt)
  catch (fun err => return_ (verify_failed err)).

Definition push_block (sandbox : Sandbox) : M Empty_set :=
  try (proc <- startProcess sandbox syncCmd ;;
       waitForProcess sandbox proc 30000 ;;
       timestampProc <- startProcess sandbox timestampCmd ;;
       waitForProcess sandbox timestampProc 5000 ;;
       timestampLogs <- getLogs sandbox timestampProc ;;
       let lastSync_ := option_map trim (stdout timestampLogs) in
       if truthy_and_dated lastSync_
       then return_ (synced lastSync_)
       else
         logs <- getLogs sandbox proc ;;
         return_ (sync_failed logs))
  catch (fun err => return_ (sync_error err)).

(* ================================================================= *)
(** ** Steps, and the parts of a trace *)

(** How a block completes: by the [return] it executed, or normally. *)
Definition after_block {A} (early : option SyncResult) (a : A) : Completion A :=
  match early with
  | Some r => Returned r
  | None => Normal a
  end.

(** The nine commands the function can start, by the step they belong to. *)
Inductive Step :=
| ProbeR2 | ProbeLocal | ProbeUser | ProbeSoul | ProbeMemory
| RestoreStep | GuardStep | PushStep | ReadMarkerStep.

Definition command_of (s : Step) : string :=
  match s with
  | ProbeR2 => r2SyncCmd
  | ProbeLocal => localSyncCmd
  | ProbeUser => userCmd
  | ProbeSoul => soulCmd
  | ProbeMemory => memoryCmd
  | RestoreStep => restoreCmd
  | GuardStep => checkCmd
  | PushStep => syncCmd
  | ReadMarkerStep => timestampCmd
  end.

Definition step_index (s : Step) : nat :=
  match s with
  | ProbeR2 => 0 | ProbeLocal => 1 | ProbeUser => 2 | ProbeSoul => 3
  | ProbeMemory => 4 | RestoreStep => 5 | GuardStep => 6 | PushStep => 7 | ReadMarkerStep => 8
  end.

Definition step_eqb (a b : Step) : bool := Nat.eqb (step_index a) (step_index b).

(** The command line contains [needle]. *)
Fixpoint mentions (needle s : string) : bool :=
  match s with
  | EmptyString => prefix needle EmptyString
  | String _ s' => prefix needle s || mentions needle s'
  end.

Definition first_char (s : string) : option ascii :=
  match s with
  | EmptyString => None
  | String c _ => Some c
  end.

(** Every interaction of the trace is about [cmd]. *)
Definition only_about (cmd : string) (t : Trace) : Prop :=
  Forall (fun e => ev_command e = Some cmd) t.

(** The interactions after the probes are about the four later steps. *)
Definition tail_event (e : Event) : bool :=
  about restoreCmd e || about checkCmd e || about syncCmd e
  || about timestampCmd e.

(** The interaction belongs to one of the five probes. *)
Definition probe_event (e : Event) : bool :=
  about r2SyncCmd e || about localSyncCmd e || about userCmd e
  || about soulCmd e || about memoryCmd e.

Definition is_probe (s : Step) : bool :=
  match s with
  | ProbeR2 | ProbeLocal | ProbeUser | ProbeSoul | ProbeMemory => true
  | _ => false
  end.

(** The five probes: command line and marker. *)
Definition probes : list (string * JsString) :=
  [ (r2SyncCmd, (js "r2")); (localSyncCmd, (js "local")); (userCmd, (js "user"));
    (soulCmd, (js "soul")); (memoryCmd, (js "memory")) ].

(** The test the confirmation applies to the marker read back. *)
Definition dated (v : option JsString) : bool :=
  match v with
  | Some s => matches_date_prefix s
  | None => false
  end.

(* ================================================================= *)
(** ** Concrete sandboxes *)

(** A sandbox that answers by command line: whether the mount succeeds,
    which commands fail to start, which awaits are rejected, and what
    [getLogs] gives.  Process identifiers count the interactions so far. *)
Record Script := mkScript {
  mounts : bool;
  start_error : string -> option Thrown;
  wait_error : string -> option Thrown;
  logs_of : string -> Thrown + Logs
}.

Definition scripted (s : Script) : Sandbox :=
  {| mount_reply := fun _ _ => mounts s;
     start_reply := fun t cmd =>
       match start_error s cmd with
       | Some e => inl e
       | None => inr (length t)
       end;
     wait_reply := fun _ p _ =>
       match wait_error s (proc_command p) with
       | Some e => inl e
       | None => inr tt
       end;
     logs_reply := fun _ p => logs_of s (proc_command p) |}.

Definition mount_path : string := "/data/moltbot".

Definition full_env : MoltbotEnv :=
  {| R2_ACCESS_KEY_ID := Some (js "key");
     R2_SECRET_ACCESS_KEY := Some (js "secret");
     CF_ACCOUNT_ID := Some (js "account") |}.

Definition newline : JsString := [10%N].

(** A process that wrote the line [s] to its output. *)
Definition printed (s : string) : Thrown + Logs :=
  inr {| stdout := Some (js s ++ newline); stderr := Some [] |}.

Definition silent : Thrown + Logs :=
  inr {| stdout := Some []; stderr := Some [] |}.

(** First sync of a configured container: nothing on the remote side, the
    config file is there, the push writes the marker. *)
Definition first_sync : Sandbox :=
  scripted
    {| mounts := true;
       start_error := fun _ => None;
       wait_error := fun _ => None;
       logs_of := fun cmd =>
         if String.eqb cmd checkCmd then printed "ok"
         else if String.eqb cmd timestampCmd
              then printed "2026-11-03T10:00:00+00:00"
              else silent |}.

(** An empty container: no local file at all, nothing on the remote. *)
Definition empty_container : Sandbox :=
  scripted
    {| mounts := true;
       start_error := fun _ => None;
       wait_error := fun _ => None;
       logs_of := fun _ => silent |}.

(** The mount fails. *)
Definition unmountable : Sandbox :=
  scripted
    {| mounts := false;
       start_error := fun _ => None;
       wait_error := fun _ => None;
       logs_of := fun _ => silent |}.

(** A remote backup exists, the container is fresh, and the restore runs
    into its time limit. *)
Definition slow_restore : Sandbox :=
  scripted
    {| mounts := true;
       start_error := fun _ => None;
       wait_error := fun cmd =>
         if String.eqb cmd restoreCmd
         then Some (JsError (js "Process timed out"))
         else None;
       logs_of := fun cmd =>
         if String.eqb cmd r2SyncCmd then printed "r2"
         else silent |}.


(** The push goes through but the marker read back is not a date, and the
    push has written to its error stream. *)
Definition unconfirmed_push : Sandbox :=
  scripted
    {| mounts := true;
       start_error := fun _ => None;
       wait_error := fun _ => None;
       logs_of := fun cmd =>
         if String.eqb cmd checkCmd then printed "ok"
         else if String.eqb cmd timestampCmd
              then printed "cat: no such file"
         else if String.eqb cmd syncCmd
              then inr {| stdout := Some [];
                          stderr := Some (js "rsync: write failed") |}
              else silent |}.

(** The guard's check cannot be awaited. *)
Definition stuck_guard : Sandbox :=
  scripted
    {| mounts := true;
       start_error := fun _ => None;
       wait_error := fun cmd =>
         if String.eqb cmd checkCmd then Some (JsOther (js "timeout")) else None;
       logs_of := fun _ => silent |}.

(** The marker read back is not a date and the push process's logs cannot
    be fetched. *)
Definition lost_push_logs : Sandbox :=
  scripted
    {| mounts := true;
       start_error := fun _ => None;
       wait_error := fun _ => None;
       logs_of := fun cmd =>
         if String.eqb cmd checkCmd then printed "ok"
         else if String.eqb cmd syncCmd then inl (JsError (js "process is gone"))
         else silent |}.

(** Every combination of the five probe variables occurs: a sandbox that
    prints the markers chosen realises it. *)
Definition answering (r2 loc user soul memory : bool) : Sandbox :=
  scripted
    {| mounts := true;
       start_error := fun _ => None;
       wait_error := fun _ => None;
       logs_of := fun cmd =>
         if String.eqb cmd r2SyncCmd
         then (if r2 then printed "r2" else silent)
         else if String.eqb cmd localSyncCmd
         then (if loc then printed "local" else silent)
         else if String.eqb cmd userCmd
         then (if user then printed "user" else silent)
         else if String.eqb cmd soulCmd
         then (if soul then printed "soul" else silent)
         else if String.eqb cmd memoryCmd
         then (if memory then printed "memory" else silent)
         else silent |}.

Definition no_access_key : MoltbotEnv :=
  {| R2_ACCESS_KEY_ID := None;
     R2_SECRET_ACCESS_KEY := Some (js "secret");
     CF_ACCOUNT_ID := Some (js "account") |}.

Definition timed_out_wait : Event :=
  EvWait (mkProcess 16 restoreCmd) 30000
         (inl (JsError (js "Process timed out"))).

(* ================================================================= *)
(** ** Further readings of a trace *)

(** The guard's check ran to the end and printed its marker. *)
Definition guard_confirmed (t : Trace) : bool :=
  observe checkCmd (logs_with (stdout_includes (js "ok"))) t.

(** The command lines started, in the order they were started. *)
Fixpoint started_commands (t : Trace) : list string :=
  match t with
  | [] => []
  | EvStart cmd _ :: t' => cmd :: started_commands t'
  | _ :: t' => started_commands t'
  end.

(** The nine command lines in the order the source starts them. *)
Definition all_commands : list string :=
  [ r2SyncCmd; localSyncCmd; userCmd; soulCmd; memoryCmd;
    restoreCmd; checkCmd; syncCmd; timestampCmd ].

(** [xs] can be obtained from [ys] by dropping elements. *)
Fixpoint is_subsequence (xs ys : list string) : bool :=
  match ys with
  | [] => match xs with [] => true | _ :: _ => false end
  | y :: ys' =>
      match xs with
      | [] => true
      | x :: xs' =>
          if String.eqb x y then is_subsequence xs' ys'
          else is_subsequence xs ys'
      end
  end.

(** The limit the source passes when it awaits the process of [cmd]: the
    bulk mirrors get 30000, every other command 5000. *)
Definition wait_limit (cmd : string) : Z :=
  if String.eqb cmd restoreCmd || String.eqb cmd syncCmd
  then 30000%Z else 5000%Z.

(** The seven failure classifications of the source. *)
Definition classifications : list JsString :=
  [ js "R2 storage is not configured"; js "Failed to mount R2 storage"; js "Restore failed"; js "Sync aborted: source missing clawdbot.json"; js "Failed to verify source files"; js "Sync failed"; js "Sync error" ].

Definition classified (r : SyncResult) : bool :=
  match error r with
  | Some e => existsb (str_eqb e) classifications
  | None => false
  end.

(** A sandbox on which the sync can go through: the mount succeeds, every
    command starts and finishes within its limit, the guard's check prints
    its marker and the marker file read back holds a date.  Nothing is
    asked of the probes' logs, nor of the logs of restore and push. *)
Record Cooperative (sandbox : Sandbox) (env : MoltbotEnv) : Prop := {
  coop_mount : forall t, mount_reply sandbox env t = true;
  coop_start : forall t cmd, exists n, start_reply sandbox t cmd = inr n;
  coop_wait : forall t p z, wait_reply sandbox t p z = inr tt;
  coop_guard : forall t p,
    proc_command p = checkCmd ->
    exists l, logs_reply sandbox t p = inr l /\ stdout_includes (js "ok") l = true;
  coop_marker : forall t p,
    proc_command p = timestampCmd ->
    exists l, logs_reply sandbox t p = inr l
              /\ dated (option_map trim (stdout l)) = true
}.

(** The date prefix in the spec's words: four digits, a dash, two digits,
    a dash and two digits at the start of the text. *)
Definition decimal_digit (c : N) : Prop := (48 <= c <= 57)%N.

Definition date_prefixed (s : JsString) : Prop :=
  exists y1 y2 y3 y4 m1 m2 d1 d2 rest,
    s = y1 :: y2 :: y3 :: y4 :: 45%N :: m1 :: m2 :: 45%N :: d1 :: d2 :: rest
    /\ Forall decimal_digit [y1; y2; y3; y4; m1; m2; d1; d2].

(** The detail of a failed confirmation in the spec's words: the push
    command's stderr, falling back to its stdout, falling back to a fixed
    message.  A stream that is absent or empty is passed over. *)
Definition push_detail (logs : Logs) : JsString :=
  match stderr logs with
  | Some (c :: e) => c :: e
  | _ =>
      match stdout logs with
      | Some (c :: o) => c :: o
      | _ => js "No timestamp file created"
      end
  end.

(** The confirmation as the spec words it for a marker that does not match:
    the result is the failure classified [Sync failed], whatever else
    happens. *)
Definition malformed_marker_is_sync_failed (sandbox : Sandbox)
  (env : MoltbotEnv) : Prop :=
  forall p l,
    In (EvLogs p (inr l)) (trace_of sandbox env) ->
    proc_command p = timestampCmd ->
    dated (option_map trim (stdout l)) = false ->
    exists d,
      result_of sandbox env =
        Resolved {| success := false; lastSync := None;
                    error := Some (js "Sync failed"); details := d |}.

(** The marker file starts with a byte order mark and ends in CR LF. *)
Definition marker_with_bom : Sandbox :=
  scripted
    {| mounts := true;
       start_error := fun _ => None;
       wait_error := fun _ => None;
       logs_of := fun cmd =>
         if String.eqb cmd checkCmd then printed "ok"
         else if String.eqb cmd timestampCmd
              then inr {| stdout := Some (65279%N :: js "2026-11-03T10:00:00+00:00"
                                            ++ [13%N; 10%N]);
                          stderr := Some [] |}
              else silent |}.

Definition bom_marker_logs : Logs :=
  {| stdout := Some (65279%N :: js "2026-11-03T10:00:00+00:00" ++ [13%N; 10%N]);
     stderr := Some [] |}.

(** Everything is in place, but the push runs into its time limit. *)
Definition push_times_out : Sandbox :=
  scripted
    {| mounts := true;
       start_error := fun _ => None;
       wait_error := fun cmd =>
         if String.eqb cmd syncCmd
         then Some (JsError (js "Process timed out"))
         else None;
       logs_of := fun cmd =>
         if String.eqb cmd checkCmd then printed "ok" else silent |}.

Definition push_wait_rejected : Event :=
  EvWait (mkProcess 19 syncCmd) 30000
         (inl (JsError (js "Process timed out"))).

(* ================================================================= *)
(** ** The function, block by block *)

(** The source, read as the sequence of its blocks. *)
Lemma syncToR2_blocks sandbox env :
  syncToR2 sandbox env =
  if credentials_missing env then return_ not_configured
  else
    mounted <- mountR2Storage sandbox env ;;
    if negb mounted then return_ mount_failed
    else
      b1 <- probe sandbox r2SyncCmd (js "r2") ;;
      b2 <- probe sandbox localSyncCmd (js "local") ;;
      b3 <- probe sandbox userCmd (js "user") ;;
      b4 <- probe sandbox soulCmd (js "soul") ;;
      b5 <- probe sandbox memoryCmd (js "memory") ;;
      restore_block sandbox (restore_needed b1 b2 b3 b4 b5) ;;
      guard_block sandbox ;;
      push_block sandbox.
Proof. reflexivity. Qed.

Ltac step_call :=
  match goal with
  | |- context [start_reply ?s ?t ?c] =>
      destruct (start_reply s t c) as [?e|?n] eqn:?
  | |- context [wait_reply ?s ?t ?p ?z] =>
      destruct (wait_reply s t p z) as [?e|[]] eqn:?
  | |- context [logs_reply ?s ?t ?p] =>
      destruct (logs_reply s t p) as [?e|?l] eqn:?
  end.

Ltac unfold_calls :=
  unfold try_catch, bind, startProcess, waitForProcess, getLogs, pure, return_.

Lemma probe_run sandbox cmd marker t :
  exists es b,
    probe sandbox cmd marker t = (Normal b, t ++ es) /\ ProbeRun cmd marker es b.
Proof.
  unfold probe. unfold_calls.
  step_call; [ | step_call; [ | step_call ] ];
    rewrite <- ?app_assoc; simpl;
    eexists; eexists; (split; [reflexivity | constructor]).
Qed.

Lemma restore_run sandbox need t :
  exists es early,
    restore_block sandbox need t = (after_block early tt, t ++ es)
    /\ RestoreRun need es early.
Proof.
  unfold restore_block. destruct need.
  - unfold_calls.
    step_call; [ | step_call ];
      rewrite <- ?app_assoc; simpl.
    + exists [EvStart restoreCmd (inl e)], (Some (restore_failed e)).
      split; [reflexivity | constructor].
    + eexists; exists (Some (restore_failed e)).
      split; [reflexivity | constructor].
    + eexists; exists None. split; [reflexivity | constructor].
  - exists [], None. unfold pure. rewrite app_nil_r.
    split; [reflexivity | constructor].
Qed.

Lemma guard_run sandbox t :
  exists es early,
    guard_block sandbox t = (after_block early tt, t ++ es)
    /\ GuardRun es early.
Proof.
  unfold guard_block. unfold_calls.
  step_call; [ | step_call; [ | step_call ] ].
  - exists [EvStart checkCmd (inl e)], (Some (verify_failed e)).
    split; [reflexivity | constructor].
  - rewrite <- ?app_assoc; simpl.
    eexists; exists (Some (verify_failed e)).
    split; [reflexivity | constructor].
  - rewrite <- ?app_assoc; simpl.
    eexists; exists (Some (verify_failed e)).
    split; [reflexivity | constructor].
  - destruct (stdout_includes (js "ok") l) eqn:Hok; simpl;
      rewrite <- ?app_assoc; simpl.
    + eexists; exists None. split; [reflexivity | now constructor].
    + eexists; exists (Some source_missing).
      split; [reflexivity | now constructor].
Qed.

Lemma push_run sandbox t :
  exists es r,
    push_block sandbox t = (Returned r, t ++ es) /\ PushRun es r.
Proof.
  unfold push_block. unfold_calls.
  step_call; [ | step_call; [ | step_call; [ | step_call; [ | step_call ] ] ] ];
    try (rewrite <- ?app_assoc; simpl;
         eexists; eexists; split; [reflexivity | constructor]; fail).
  destruct (truthy_and_dated (option_map trim (stdout l))) eqn:Hdate.
  - rewrite <- ?app_assoc; simpl.
    eexists; eexists; split; [reflexivity | now constructor].
  - step_call; rewrite <- ?app_assoc; simpl;
      eexists; eexists; (split; [reflexivity | now constructor]).
Qed.

Lemma bind_normal {A B} (m : M A) (k : A -> M B) t a t' :
  m t = (Normal a, t') -> bind m k t = k a t'.
Proof. unfold bind. now intros ->. Qed.

Lemma bind_after {A B} (m : M A) (k : A -> M B) t early a t' :
  m t = (after_block early a, t') ->
  bind m k t = match early with
               | Some r => (Returned r, t')
               | None => k a t'
               end.
Proof. unfold bind. intros ->. now destruct early. Qed.

(** Every call resolves, and its trace and result have the shape of
    [Execution]. *)
Lemma run_execution sandbox env :
  exists t r,
    run sandbox env = (Resolved r, t) /\ Execution sandbox env t r.
Proof.
  unfold run. rewrite syncToR2_blocks.
  destruct (credentials_missing env) eqn:Hcred.
  { exists [], not_configured. split; [reflexivity | now constructor]. }
  unfold bind at 1, mountR2Storage.
  destruct (mount_reply sandbox env []) eqn:Hmount; cbn [negb].
  2:{ exists [EvMount false], mount_failed.
      split; [reflexivity | now constructor]. }
  destruct (probe_run sandbox r2SyncCmd (js "r2") ([] ++ [EvMount true]))
    as (p1 & b1 & E1 & H1).
  rewrite (bind_normal _ _ _ _ _ E1).
  destruct (probe_run sandbox localSyncCmd (js "local") (([] ++ [EvMount true]) ++ p1))
    as (p2 & b2 & E2 & H2).
  rewrite (bind_normal _ _ _ _ _ E2).
  match goal with |- context [bind _ _ ?t] =>
    destruct (probe_run sandbox userCmd (js "user") t) as (p3 & b3 & E3 & H3) end.
  rewrite (bind_normal _ _ _ _ _ E3).
  match goal with |- context [bind _ _ ?t] =>
    destruct (probe_run sandbox soulCmd (js "soul") t) as (p4 & b4 & E4 & H4) end.
  rewrite (bind_normal _ _ _ _ _ E4).
  match goal with |- context [bind _ _ ?t] =>
    destruct (probe_run sandbox memoryCmd (js "memory") t) as (p5 & b5 & E5 & H5) end.
  rewrite (bind_normal _ _ _ _ _ E5).
  match goal with |- context [bind _ _ ?t] =>
    destruct (restore_run sandbox (restore_needed b1 b2 b3 b4 b5) t)
      as (rs & er & Er & Hr) end.
  rewrite (bind_after _ _ _ _ _ _ Er).
  destruct er as [r|].
  { eexists; exists r. split; [reflexivity | ].
    rewrite <- ?app_assoc; simpl.
    econstructor; eauto. now apply TailRestoreAborted. }
  match goal with |- context [bind _ _ ?t] =>
    destruct (guard_run sandbox t) as (gs & eg & Eg & Hg) end.
  rewrite (bind_after _ _ _ _ _ _ Eg).
  destruct eg as [r|].
  { eexists; exists r. split; [reflexivity | ].
    rewrite <- ?app_assoc; simpl.
    econstructor; eauto. now apply TailGuardAborted. }
  match goal with |- context [push_block _ ?t] =>
    destruct (push_run sandbox t) as (ps & r & Ep & Hp) end.
  rewrite Ep.
  eexists; exists r. split; [reflexivity | ].
  rewrite <- ?app_assoc; simpl.
  econstructor; eauto. now apply TailPushed.
Qed.

(* ================================================================= *)
(** ** The command lines tell the steps apart *)

Lemma mentions_append needle a b :
  mentions needle b = true -> mentions needle (a ++ b)%string = true.
Proof.
  intros H. induction a as [|c a IH]; simpl.
  - exact H.
  - rewrite IH. apply orb_true_r.
Qed.

Lemma r2SyncCmd_mentions_r2 : mentions "r2" r2SyncCmd = true.
Proof.
  unfold r2SyncCmd. do 2 apply mentions_append. reflexivity.
Qed.

(** Whatever the mount path is, no two steps share a command line: the
    first character separates probes and guard, restore, push and the
    marker read; the remote probe is the only [test] that mentions [r2]. *)
Lemma command_of_inj a b : command_of a = command_of b -> a = b.
Proof.
  intros H.
  destruct (step_eqb a b) eqn:E.
  { destruct a, b; reflexivity || discriminate E. }
  exfalso.
  destruct a, b; try discriminate E; clear E; cbn [command_of] in H;
    first
      [ apply (f_equal first_char) in H; vm_compute in H; discriminate H
      | apply (f_equal (mentions "r2")) in H;
        rewrite r2SyncCmd_mentions_r2 in H; vm_compute in H; discriminate H
      | vm_compute in H; discriminate H ].
Qed.

Lemma command_eqb a b :
  String.eqb (command_of a) (command_of b) = step_eqb a b.
Proof.
  destruct (step_eqb a b) eqn:E.
  - apply String.eqb_eq. destruct a, b; reflexivity || discriminate E.
  - apply String.eqb_neq. intros H. apply command_of_inj in H. subst b.
    unfold step_eqb in E. now rewrite Nat.eqb_refl in E.
Qed.

Ltac step_of c :=
  lazymatch c with
  | r2SyncCmd => constr:(ProbeR2)
  | localSyncCmd => constr:(ProbeLocal)
  | userCmd => constr:(ProbeUser)
  | soulCmd => constr:(ProbeSoul)
  | memoryCmd => constr:(ProbeMemory)
  | restoreCmd => constr:(RestoreStep)
  | checkCmd => constr:(GuardStep)
  | syncCmd => constr:(PushStep)
  | timestampCmd => constr:(ReadMarkerStep)
  end.

(** Decide every comparison of two command lines in the goal. *)
Ltac cmd_eqb :=
  repeat match goal with
  | |- context [String.eqb ?x ?y] =>
      let sx := step_of x in
      let sy := step_of y in
      change (String.eqb x y) with (String.eqb (command_of sx) (command_of sy));
      rewrite (command_eqb sx sy);
      change (step_eqb sx sy) with (Nat.eqb (step_index sx) (step_index sy));
      cbn [step_index Nat.eqb]
  end.

(* ================================================================= *)
(** ** Observations on the parts of a trace *)

Lemma observe_app cmd f t1 t2 :
  observe cmd f (t1 ++ t2) = observe cmd f t1 || observe cmd f t2.
Proof. apply existsb_app. Qed.

Lemma observe_nil cmd f : observe cmd f [] = false.
Proof. reflexivity. Qed.

Lemma observe_cons cmd f e t :
  observe cmd f (e :: t) = about cmd e && f e || observe cmd f t.
Proof. reflexivity. Qed.

Lemma observe_foreign cmd cmd' f t :
  only_about cmd' t -> String.eqb cmd' cmd = false -> observe cmd f t = false.
Proof.
  intros Ht Hneq. induction Ht as [|e t He _ IH].
  - reflexivity.
  - rewrite observe_cons, IH. unfold about. now rewrite He, Hneq.
Qed.


Lemma ProbeRun_about cmd marker es b :
  ProbeRun cmd marker es b -> only_about cmd es.
Proof. intros H; destruct H; repeat constructor. Qed.

Lemma about_self_start cmd r : about cmd (EvStart cmd r) = true.
Proof. apply String.eqb_refl. Qed.

Lemma about_self_wait n cmd z r : about cmd (EvWait (mkProcess n cmd) z r) = true.
Proof. apply String.eqb_refl. Qed.

Lemma about_self_logs n cmd r : about cmd (EvLogs (mkProcess n cmd) r) = true.
Proof. apply String.eqb_refl. Qed.

Ltac own_events :=
  rewrite ?observe_cons, ?about_self_start, ?about_self_wait, ?about_self_logs;
  cbn [observe existsb is_start is_rejection logs_with andb orb].

(** What a probe block leaves in its variable is what the trace shows. *)
Lemma ProbeRun_outcome cmd marker es b :
  ProbeRun cmd marker es b ->
  observe cmd (logs_with (stdout_includes marker)) es = b.
Proof.
  intros H; destruct H; own_events;
    rewrite ?orb_false_r; reflexivity.
Qed.

Lemma ProbeRun_started cmd marker es b :
  ProbeRun cmd marker es b -> observe cmd is_start es = true.
Proof. intros H; destruct H; own_events; reflexivity. Qed.




(** Remove from an observation the probe parts that are about another
    command line. *)
Ltac drop_probes :=
  repeat match goal with
  | H : ProbeRun ?c' _ ?p _ |- context [observe ?c ?f ?p] =>
      rewrite (observe_foreign c c' f p (ProbeRun_about _ _ _ _ H))
        by (cmd_eqb; reflexivity)
  end.

(** Evaluate observations on explicit lists of interactions. *)
Ltac obs :=
  unfold guard_found_missing, restore_executed, guard_executed, push_executed,
    started, rejected, probe_outcome;
  repeat first [rewrite observe_app | rewrite observe_cons];
  drop_probes;
  unfold observe, about;
  cbn [existsb ev_command proc_command];
  cmd_eqb;
  cbn [is_start is_rejection logs_with andb orb].

Lemma part_about cmd cmd' t e :
  only_about cmd' t -> In e t -> about cmd e = String.eqb cmd' cmd.
Proof.
  intros Ht Hin. unfold only_about in Ht. rewrite Forall_forall in Ht.
  unfold about. now rewrite (Ht e Hin).
Qed.

Ltac invert_tail H :=
  inversion H; clear H; subst;
  repeat match goal with
  | R : RestoreRun _ _ _ |- _ => inversion R; clear R; subst
  | G : GuardRun _ _ |- _ => inversion G; clear G; subst
  | P : PushRun _ _ |- _ => inversion P; clear P; subst
  end.

Ltac with_execution sandbox env :=
  let t := fresh "t" in
  let r := fresh "r" in
  let E := fresh "E" in
  let X := fresh "X" in
  destruct (run_execution sandbox env) as (t & r & E & X);
  unfold trace_of, result_of; rewrite E; cbn [fst snd]; clear E.

(** Split a membership in a trace into its parts. *)
Ltac in_cases H :=
  repeat match type of H with
  | In _ (_ ++ _) => apply in_app_or in H; destruct H as [H|H]
  | In _ (_ :: _) => apply in_inv in H; destruct H as [H|H]
  | In _ [] => destruct H
  end.

(** An interaction about [cmd] cannot lie in a probe part for another
    command line. *)
Ltac not_in_probe Hin Hab :=
  match type of Hin with
  | In ?e ?p =>
      match goal with
      | H : ProbeRun ?c' _ p _ |- _ =>
          exfalso; revert Hab;
          rewrite (part_about _ c' p e (ProbeRun_about _ _ _ _ H) Hin);
          cmd_eqb; discriminate
      end
  end.

Ltac explicit_event Hab :=
  subst; revert Hab; unfold about; cbn [ev_command proc_command]; cmd_eqb;
  intros Hab; try discriminate Hab.

(* ================================================================= *)
(** ** Properties of [syncToR2] *)

Lemma guard_missing_stops sandbox env :
  guard_found_missing (trace_of sandbox env) = true ->
  result_of sandbox env = Resolved source_missing
  /\ push_executed (trace_of sandbox env) = false
  /\ rejected checkCmd (trace_of sandbox env) = false.
Proof.
  with_execution sandbox env.
  destruct X as [Hc | Hc Hm | b1 b2 b3 b4 b5 p1 p2 p3 p4 p5 tl r Hc Hm H1 H2 H3 H4 H5 Ht].
  - discriminate.
  - discriminate.
  - invert_tail Ht; obs; try (intros; discriminate);
      match goal with H : stdout_includes _ _ = _ |- _ => rewrite H end;
      cbn [negb orb]; intros; discriminate || (repeat split; reflexivity).
Qed.

Lemma guard_rejection_stops sandbox env ev err :
  In ev (trace_of sandbox env) ->
  about checkCmd ev = true ->
  rejection_of ev = Some err ->
  result_of sandbox env = Resolved (verify_failed err)
  /\ push_executed (trace_of sandbox env) = false
  /\ guard_found_missing (trace_of sandbox env) = false.
Proof.
  with_execution sandbox env. intros Hin Hab Hrej.
  destruct X as [Hc | Hc Hm | b1 b2 b3 b4 b5 p1 p2 p3 p4 p5 tl r Hc Hm H1 H2 H3 H4 H5 Ht].
  - destruct Hin.
  - in_cases Hin. subst ev. discriminate Hab.
  - invert_tail Ht; in_cases Hin;
      try (not_in_probe Hin Hab);
      explicit_event Hab;
      try discriminate Hrej;
      injection Hrej as <-; obs; repeat split; reflexivity.
Qed.

(** C1 (push safety).  Whenever the integrity guard's check runs to the end
    and does not report [/root/.clawdbot/clawdbot.json] (its output lacks
    the marker), the call returns the result classified
    [Sync aborted: source missing clawdbot.json] and the push command is
    never started.  The statement quantifies over every sandbox, so it
    holds whether or not the restore step ran and whatever it did. *)
Theorem guard_missing_never_pushes sandbox env :
  guard_found_missing (trace_of sandbox env) = true ->
  result_of sandbox env =
    Resolved {| success := false; lastSync := None;
                error := Some (js "Sync aborted: source missing clawdbot.json");
                details := Some (js "The local config directory is missing critical files. This could indicate corruption or an incomplete setup.") |}
  /\ push_executed (trace_of sandbox env) = false.
Proof.
  intros H. destruct (guard_missing_stops sandbox env H) as (Hr & Hp & _).
  split; assumption.
Qed.

(** C2 (credential gate).  If one of the three credential fields is absent
    (undefined, or empty: the code tests truthiness), the call returns the
    result classified [R2 storage is not configured] and makes no
    interaction at all: no mount attempt and no command. *)
Theorem credential_gate sandbox env :
  truthy (R2_ACCESS_KEY_ID env) = false
  \/ truthy (R2_SECRET_ACCESS_KEY env) = false
  \/ truthy (CF_ACCOUNT_ID env) = false ->
  run sandbox env =
    (Resolved {| success := false; lastSync := None;
                 error := Some (js "R2 storage is not configured");
                 details := None |},
     []).
Proof.
  intros H. unfold run, syncToR2.
  assert (Hm : negb (truthy (R2_ACCESS_KEY_ID env))
               || negb (truthy (R2_SECRET_ACCESS_KEY env))
               || negb (truthy (CF_ACCOUNT_ID env)) = true).
  { destruct H as [H | [H | H]]; rewrite H; cbn [negb];
      rewrite ?orb_true_r; reflexivity. }
  rewrite Hm. reflexivity.
Qed.

(** C8 (mount failure).  With the three credentials present, if the mount
    collaborator returns [false] the call returns exactly
    [{success: false, error: "Failed to mount R2 storage"}], no other
    field set, and the mount attempt is its only interaction: no probe,
    restore, guard or push command is started. *)
Theorem mount_failure_result sandbox env :
  truthy (R2_ACCESS_KEY_ID env) = true ->
  truthy (R2_SECRET_ACCESS_KEY env) = true ->
  truthy (CF_ACCOUNT_ID env) = true ->
  mount_reply sandbox env [] = false ->
  run sandbox env =
    (Resolved {| success := false; lastSync := None;
                 error := Some (js "Failed to mount R2 storage");
                 details := None |},
     [EvMount false]).
Proof.
  intros Ha Hs Hc Hm. unfold run, syncToR2.
  rewrite Ha, Hs, Hc. cbn [negb orb].
  unfold bind at 1, mountR2Storage. rewrite Hm. reflexivity.
Qed.

(** C5 (restore is fail-hard).  When a call of the restore step is
    rejected ([startProcess] rejects, or the await of the restore process
    rejects, which is how a timeout surfaces), the call returns at once the
    result classified [Restore failed], whose details are the message of
    the very error thrown; neither the guard's check nor the push command
    is started.  The restore process is awaited with a limit of 30000. *)
Theorem restore_failure_aborts sandbox env :
  (forall ev err,
      In ev (trace_of sandbox env) ->
      about restoreCmd ev = true ->
      rejection_of ev = Some err ->
      result_of sandbox env =
        Resolved {| success := false; lastSync := None;
                    error := Some (js "Restore failed");
                    details := Some (error_message err) |}
      /\ guard_executed (trace_of sandbox env) = false
      /\ push_executed (trace_of sandbox env) = false)
  /\ (forall p z reply,
         In (EvWait p z reply) (trace_of sandbox env) ->
         proc_command p = restoreCmd ->
         z = 30000%Z).
Proof.
  with_execution sandbox env. split.
  - intros ev err Hin Hab Hrej.
    destruct X as [Hc | Hc Hm | b1 b2 b3 b4 b5 p1 p2 p3 p4 p5 tl r Hc Hm H1 H2 H3 H4 H5 Ht].
    + destruct Hin.
    + in_cases Hin. subst ev. discriminate Hab.
    + invert_tail Ht; in_cases Hin;
        try (not_in_probe Hin Hab);
        explicit_event Hab;
        try discriminate Hrej;
        injection Hrej as <-; obs; repeat split; reflexivity.
  - intros p z reply Hin Hcmd.
    assert (Hab : about restoreCmd (EvWait p z reply) = true).
    { unfold about; cbn [ev_command]. rewrite Hcmd. apply String.eqb_refl. }
    clear Hcmd.
    destruct X as [Hc | Hc Hm | b1 b2 b3 b4 b5 p1 p2 p3 p4 p5 tl r Hc Hm H1 H2 H3 H4 H5 Ht].
    + destruct Hin.
    + in_cases Hin. discriminate Hin.
    + invert_tail Ht; in_cases Hin;
        try (not_in_probe Hin Hab);
        try discriminate Hin;
        injection Hin as Hp Hz Hr; subst p z reply;
        explicit_event Hab; reflexivity.
Qed.

(** C9 (the guard's two failure modes).  When the guard's check runs to
    the end and its output lacks the marker, the result is
    [Sync aborted: source missing clawdbot.json]; when a call of the
    guard's check is rejected (command error or timeout), the result is
    [Failed to verify source files] with the message of the error thrown.
    The two situations exclude each other, the two classifications are
    different strings, and in both the push command is never started. *)
Theorem guard_failure_modes sandbox env :
  (guard_found_missing (trace_of sandbox env) = true ->
   result_of sandbox env =
     Resolved {| success := false; lastSync := None;
                 error := Some (js "Sync aborted: source missing clawdbot.json");
                 details := Some (js "The local config directory is missing critical files. This could indicate corruption or an incomplete setup.") |}
   /\ push_executed (trace_of sandbox env) = false
   /\ rejected checkCmd (trace_of sandbox env) = false)
  /\ (forall ev err,
         In ev (trace_of sandbox env) ->
         about checkCmd ev = true ->
         rejection_of ev = Some err ->
         result_of sandbox env =
           Resolved {| success := false; lastSync := None;
                       error := Some (js "Failed to verify source files");
                       details := Some (error_message err) |}
         /\ push_executed (trace_of sandbox env) = false
         /\ guard_found_missing (trace_of sandbox env) = false)
  /\ (forall err, error source_missing <> error (verify_failed err)).
Proof.
  split; [ | split ].
  - apply guard_missing_stops.
  - apply guard_rejection_stops.
  - intros err. discriminate.
Qed.

(** C6 (no exception escapes).  Whatever the sandbox does (replies,
    rejections, timeouts) and whatever the credentials are, the call
    resolves with a [SyncResult]; it never rejects.  The mount collaborator
    is taken with the contract the spec gives it, a boolean reply: its call
    is the one await of the function outside a [try] block. *)
Theorem syncToR2_always_resolves sandbox env :
  exists r, result_of sandbox env = Resolved r.
Proof.
  destruct (run_execution sandbox env) as (t & r & E & _).
  exists r. unfold result_of. now rewrite E.
Qed.

Lemma truthy_and_dated_set v : truthy_and_dated v = true -> is_set v = true.
Proof. destruct v; [reflexivity | discriminate]. Qed.

Lemma Execution_well_shaped sandbox env t r :
  Execution sandbox env t r -> well_shaped r = true.
Proof.
  intros X.
  destruct X as [Hc | Hc Hm | b1 b2 b3 b4 b5 p1 p2 p3 p4 p5 tl r Hc Hm H1 H2 H3 H4 H5 Ht];
    try reflexivity.
  invert_tail Ht; try reflexivity;
    unfold well_shaped; cbn [success lastSync error details synced];
    match goal with
    | H : truthy_and_dated _ = true |- _ =>
        rewrite (truthy_and_dated_set _ H); reflexivity
    end.
Qed.

(** C10 (shape of the result).  The call resolves with a result that is
    well shaped: with [success] true, [lastSync] is set and [error] and
    [details] are absent; with [success] false, [error] is set and
    [lastSync] is absent. *)
Theorem result_well_shaped sandbox env :
  exists r, result_of sandbox env = Resolved r /\ well_shaped r = true.
Proof.
  destruct (run_execution sandbox env) as (t & r & E & X).
  exists r. split.
  - unfold result_of. now rewrite E.
  - exact (Execution_well_shaped _ _ _ _ X).
Qed.

(** [well_shaped], spelled out. *)
Lemma well_shaped_spec r :
  well_shaped r = true <->
  (success r = true ->
     lastSync r <> None /\ error r = None /\ details r = None)
  /\ (success r = false -> error r <> None /\ lastSync r = None).
Proof.
  unfold well_shaped.
  destruct r as [[] [ls|] [er|] [de|]]; cbn; split;
    try discriminate; try (intros _; split; intros; repeat split;
                           congruence || discriminate);
    intros [H1 H2];
    try (destruct (H1 eq_refl) as (? & ? & ?); congruence);
    try (destruct (H2 eq_refl) as (? & ?); congruence).
Qed.

Lemma TailRun_events need tl r :
  TailRun need tl r -> Forall (fun e => tail_event e = true) tl.
Proof.
  intros H. invert_tail H; cbn [app];
    repeat constructor;
    unfold tail_event, about; cbn [ev_command proc_command]; cmd_eqb;
    reflexivity.
Qed.

Lemma tail_event_not_probe s e :
  is_probe s = true -> tail_event e = true -> about (command_of s) e = false.
Proof.
  unfold tail_event, about. destruct (ev_command e) as [c|]; [ | reflexivity ].
  intros Hs Ht.
  destruct (String.eqb_spec c (command_of s)) as [-> | ]; [ | reflexivity ].
  exfalso. revert Ht.
  change restoreCmd with (command_of RestoreStep).
  change checkCmd with (command_of GuardStep).
  change syncCmd with (command_of PushStep).
  change timestampCmd with (command_of ReadMarkerStep).
  rewrite !command_eqb.
  destruct s; try discriminate Hs; cbn; discriminate.
Qed.

Lemma observe_tail_probe s f need tl r :
  is_probe s = true -> TailRun need tl r -> observe (command_of s) f tl = false.
Proof.
  intros Hs Ht. apply TailRun_events in Ht.
  induction Ht as [|e tl He _ IH]; [reflexivity | ].
  rewrite observe_cons, IH, (tail_event_not_probe s e Hs He). reflexivity.
Qed.

Lemma TailRun_restore need tl r :
  TailRun need tl r -> observe restoreCmd is_start tl = need.
Proof. intros H. invert_tail H; obs; reflexivity. Qed.


Ltac split_obs :=
  unfold guard_found_missing, restore_executed, guard_executed, push_executed,
    r2HasSync, localHasSync, localHasUser, localHasSoul, localHasMemory,
    started, rejected, probe_outcome;
  repeat first [rewrite observe_app | rewrite observe_cons | rewrite observe_nil];
  drop_probes;
  repeat match goal with
  | H : ProbeRun ?c ?m ?p _ |- context [observe ?c (logs_with (stdout_includes ?m)) ?p] =>
      rewrite (ProbeRun_outcome c m p _ H)
  | H : ProbeRun ?c ?m ?p _ |- context [observe ?c is_start ?p] =>
      rewrite (ProbeRun_started c m p _ H)
  | H : TailRun _ ?tl _ |- context [observe ?c ?f ?tl] =>
      let s := step_of c in
      rewrite (observe_tail_probe s f _ tl _ eq_refl H : observe c f tl = false)
  end;
  cbn [about ev_command andb orb];
  rewrite ?orb_false_r.

(** The restore command is started exactly when the source's condition on
    the five probe variables holds. *)
Lemma restore_decision sandbox env :
  restore_executed (trace_of sandbox env) =
  r2HasSync (trace_of sandbox env)
  && (negb (localHasSync (trace_of sandbox env))
      || negb (localHasUser (trace_of sandbox env))
      || negb (localHasSoul (trace_of sandbox env))
      || negb (localHasMemory (trace_of sandbox env))).
Proof.
  with_execution sandbox env.
  destruct X as [Hc | Hc Hm | b1 b2 b3 b4 b5 p1 p2 p3 p4 p5 tl r Hc Hm H1 H2 H3 H4 H5 Ht].
  - reflexivity.
  - reflexivity.
  - split_obs. rewrite (TailRun_restore _ _ _ Ht). reflexivity.
Qed.

Lemma ProbeRun_probe_events s marker es b :
  is_probe s = true ->
  ProbeRun (command_of s) marker es b ->
  Forall (fun e => probe_event e = true) es.
Proof.
  intros Hs H. apply ProbeRun_about in H.
  refine (Forall_impl _ _ H). intros e He.
  unfold probe_event, about. rewrite He.
  change r2SyncCmd with (command_of ProbeR2).
  change localSyncCmd with (command_of ProbeLocal).
  change userCmd with (command_of ProbeUser).
  change soulCmd with (command_of ProbeSoul).
  change memoryCmd with (command_of ProbeMemory).
  rewrite !command_eqb.
  destruct s; try discriminate Hs; reflexivity.
Qed.

Lemma restore_skipped_next sandbox env :
  credentials_missing env = false ->
  mount_reply sandbox env [] = true ->
  restore_executed (trace_of sandbox env) = false ->
  exists pre reply post,
    trace_of sandbox env = EvMount true :: pre ++ EvStart checkCmd reply :: post
    /\ Forall (fun e => probe_event e = true) pre.
Proof.
  with_execution sandbox env. intros Hcred Hmount.
  destruct X as [Hc | Hc Hm | b1 b2 b3 b4 b5 p1 p2 p3 p4 p5 tl r Hc Hm H1 H2 H3 H4 H5 Ht].
  - congruence.
  - congruence.
  - split_obs. rewrite (TailRun_restore _ _ _ Ht). intros Hneed.
    rewrite Hneed in Ht.
    assert (Hg : exists reply post, tl = EvStart checkCmd reply :: post).
    { inversion Ht as [rs r' Hr | rs gs r' Hr Hg | rs gs ps r' Hr Hg Hp]; subst;
        inversion Hr; subst; inversion Hg; subst; cbn [app];
        eexists; eexists; reflexivity. }
    destruct Hg as (reply & post & ->).
    exists (p1 ++ p2 ++ p3 ++ p4 ++ p5), reply, post. split.
    + rewrite <- !app_assoc. reflexivity.
    + repeat (apply Forall_app; split);
        [ apply (ProbeRun_probe_events ProbeR2 _ _ _ eq_refl H1)
        | apply (ProbeRun_probe_events ProbeLocal _ _ _ eq_refl H2)
        | apply (ProbeRun_probe_events ProbeUser _ _ _ eq_refl H3)
        | apply (ProbeRun_probe_events ProbeSoul _ _ _ eq_refl H4)
        | apply (ProbeRun_probe_events ProbeMemory _ _ _ eq_refl H5) ].
Qed.

(** C3 (restore trigger).  The restore command is started if and only if
    the remote-marker probe is true and at least one of the four local
    probes (local marker, [USER.md], [SOUL.md], [MEMORY.md]) is false.
    When it is not started (the remote marker is absent, or all four local
    probes are true) in a call that got past the mount, the interaction
    that follows the probes is the start of the guard's check. *)
Theorem restore_trigger sandbox env :
  restore_executed (trace_of sandbox env) =
    r2HasSync (trace_of sandbox env)
    && (negb (localHasSync (trace_of sandbox env))
        || negb (localHasUser (trace_of sandbox env))
        || negb (localHasSoul (trace_of sandbox env))
        || negb (localHasMemory (trace_of sandbox env)))
  /\ (credentials_missing env = false ->
      mount_reply sandbox env [] = true ->
      restore_executed (trace_of sandbox env) = false ->
      exists pre reply post,
        trace_of sandbox env =
          EvMount true :: pre ++ EvStart checkCmd reply :: post
        /\ Forall (fun e => probe_event e = true) pre).
Proof.
  split.
  - apply restore_decision.
  - apply restore_skipped_next.
Qed.



(** The pattern cannot match the empty string, so the truthiness test of
    the source adds nothing to it. *)
Lemma truthy_and_dated_dated v : truthy_and_dated v = dated v.
Proof. destruct v as [[|c s]|]; reflexivity. Qed.

Ltac find_logs Hin Hcmd c :=
  let Hab := fresh "Hab" in
  match type of Hin with
  | In (EvLogs ?p (inr ?l)) _ =>
      assert (Hab : about c (EvLogs p (inr l)) = true)
        by (unfold about; cbn [ev_command]; rewrite Hcmd;
            apply String.eqb_refl);
      clear Hcmd;
      in_cases Hin;
      try (not_in_probe Hin Hab);
      try discriminate Hin;
      injection Hin as <- <-;
      explicit_event Hab; clear Hab
  end.

Lemma sync_failed_detail pl :
  sync_failed pl =
    {| success := false; lastSync := None;
       error := Some (js "Sync failed");
       details := Some (push_detail pl) |}.
Proof.
  unfold sync_failed, push_detail, js_or, truthy.
  destruct (stderr pl) as [[|c e]|]; destruct (stdout pl) as [[|d o]|];
    reflexivity.
Qed.

Lemma is_digit_spec c : is_digit c = true <-> decimal_digit c.
Proof.
  unfold is_digit, decimal_digit.
  rewrite andb_true_iff, !N.leb_le. reflexivity.
Qed.

Lemma matches_date_prefix_spec s :
  matches_date_prefix s = true <-> date_prefixed s.
Proof.
  split.
  - intros H.
    destruct s as [|y1 [|y2 [|y3 [|y4 [|d1 [|m1 [|m2 [|d2 [|a1 [|a2 rest]]]]]]]]]];
      try discriminate H.
    cbn [matches_date_prefix] in H.
    do 9 (apply andb_true_iff in H; destruct H as [H ?]).
    unfold is_dash in *.
    repeat match goal with
    | E : N.eqb _ _ = true |- _ => apply N.eqb_eq in E; subst
    | E : is_digit _ = true |- _ => apply is_digit_spec in E
    end.
    exists y1, y2, y3, y4, m1, m2, a1, a2, rest.
    split; [reflexivity | ].
    repeat (apply Forall_cons; [assumption | ]). apply Forall_nil.
  - intros (y1 & y2 & y3 & y4 & m1 & m2 & a1 & a2 & rest & -> & F).
    repeat match goal with
    | F : Forall _ (_ :: _) |- _ => inversion F; clear F; subst
    end.
    cbn [matches_date_prefix]. unfold is_dash.
    repeat match goal with
    | E : decimal_digit _ |- _ => apply is_digit_spec in E; rewrite E; clear E
    end.
    reflexivity.
Qed.

Lemma dated_spec v :
  dated v = true <-> exists s, v = Some s /\ date_prefixed s.
Proof.
  destruct v as [s|]; cbn [dated].
  - rewrite matches_date_prefix_spec. split.
    + intros H. exists s. split; [reflexivity | exact H].
    + intros (s' & E & H). injection E as ->. exact H.
  - split; [discriminate | intros (s' & E & _); discriminate E].
Qed.

(** A successful result comes with a marker that was read back and
    matched. *)
Lemma success_from_marker sandbox env r :
  result_of sandbox env = Resolved r ->
  success r = true ->
  exists p l,
    In (EvLogs p (inr l)) (trace_of sandbox env)
    /\ proc_command p = timestampCmd
    /\ dated (option_map trim (stdout l)) = true
    /\ lastSync r = option_map trim (stdout l).
Proof.
  with_execution sandbox env.
  intros Hres Hsucc. injection Hres as ->.
  destruct X as [Hc | Hc Hm | b1 b2 b3 b4 b5 p1 p2 p3 p4 p5 tl r Hc Hm H1 H2 H3 H4 H5 Ht];
    try discriminate Hsucc.
  invert_tail Ht; try discriminate Hsucc;
    match goal with
    | H : truthy_and_dated _ = _ |- _ => rewrite truthy_and_dated_dated in H
    end;
    eexists; eexists;
    (split; [ right; repeat (apply in_or_app; right); cbn [In]; auto 10 | ]);
    (split; [ reflexivity | split; [ eassumption | reflexivity ] ]).
Qed.

(** A rejected call of the push step or of the marker read-back ends the
    call with [Sync error]. *)
Lemma push_rejection sandbox env ev err :
  In ev (trace_of sandbox env) ->
  about syncCmd ev = true \/ about timestampCmd ev = true ->
  rejection_of ev = Some err ->
  result_of sandbox env = Resolved (sync_error err).
Proof.
  with_execution sandbox env. intros Hin Hab Hrej.
  destruct X as [Hc | Hc Hm | b1 b2 b3 b4 b5 p1 p2 p3 p4 p5 tl r Hc Hm H1 H2 H3 H4 H5 Ht].
  - destruct Hin.
  - in_cases Hin. subst ev. destruct Hab; discriminate.
  - destruct Hab as [Hab | Hab];
      invert_tail Ht; in_cases Hin;
        try (not_in_probe Hin Hab);
        explicit_event Hab;
        try discriminate Hrej;
        injection Hrej as <-; reflexivity.
Qed.

(** C4 (confirmation by the marker), as amended.  Once the marker file has
    been read back after the push ([getLogs] of the [cat] process
    resolved), its trimmed content decides between success and failure: if
    it starts with four digits, a dash, two digits, a dash and two digits,
    the call returns success with [lastSync] set to it; otherwise the call
    fails, with [Sync failed] and the detail drawn from the push's stderr,
    else its stdout, else the fixed message when the logs of the push
    process can be fetched, and with [Sync error] and the message of the
    error thrown when fetching them is rejected.  A rejected call of the
    read-back itself also ends in [Sync error].  Nothing else yields
    success: a successful result always comes with a marker that was read
    back and matched. *)
Theorem marker_decides_success sandbox env :
  (forall p l,
      In (EvLogs p (inr l)) (trace_of sandbox env) ->
      proc_command p = timestampCmd ->
      (dated (option_map trim (stdout l)) = true ->
       result_of sandbox env =
         Resolved {| success := true;
                     lastSync := option_map trim (stdout l);
                     error := None; details := None |})
      /\ (dated (option_map trim (stdout l)) = false ->
          (exists q pl,
              In (EvLogs q (inr pl)) (trace_of sandbox env)
              /\ proc_command q = syncCmd
              /\ result_of sandbox env =
                   Resolved {| success := false; lastSync := None;
                               error := Some (js "Sync failed");
                               details := Some (push_detail pl) |})
          \/ (exists q e,
                 In (EvLogs q (inl e)) (trace_of sandbox env)
                 /\ proc_command q = syncCmd
                 /\ result_of sandbox env =
                      Resolved {| success := false; lastSync := None;
                                  error := Some (js "Sync error");
                                  details := Some (error_message e) |})))
  /\ (forall ev e,
         In ev (trace_of sandbox env) ->
         about timestampCmd ev = true ->
         rejection_of ev = Some e ->
         result_of sandbox env =
           Resolved {| success := false; lastSync := None;
                       error := Some (js "Sync error");
                       details := Some (error_message e) |})
  /\ (forall r,
         result_of sandbox env = Resolved r ->
         success r = true ->
         exists p l,
           In (EvLogs p (inr l)) (trace_of sandbox env)
           /\ proc_command p = timestampCmd
           /\ dated (option_map trim (stdout l)) = true
           /\ lastSync r = option_map trim (stdout l))
  /\ (forall v,
         dated v = true <-> exists s, v = Some s /\ date_prefixed s).
Proof.
  split; [ | split; [ | split ] ].
  - with_execution sandbox env.
    intros p l Hin Hcmd.
    destruct X as [Hc | Hc Hm | b1 b2 b3 b4 b5 p1 p2 p3 p4 p5 tl r Hc Hm H1 H2 H3 H4 H5 Ht].
    + destruct Hin.
    + in_cases Hin. discriminate Hin.
    + invert_tail Ht; find_logs Hin Hcmd timestampCmd;
        match goal with
        | H : truthy_and_dated _ = _ |- _ => rewrite truthy_and_dated_dated in H
        end;
        (split; intros Hd; [ try congruence; reflexivity | try congruence ]);
        first
          [ right; eexists; eexists;
            split; [ right; repeat (apply in_or_app; right); cbn [In]; auto 10 | ];
            split; reflexivity
          | left; eexists; eexists;
            split; [ right; repeat (apply in_or_app; right); cbn [In]; auto 10 | ];
            split; [ reflexivity | ];
            rewrite sync_failed_detail; reflexivity ].
  - intros ev e Hin Hab Hrej.
    exact (push_rejection sandbox env ev e Hin (or_intror Hab) Hrej).
  - exact (success_from_marker sandbox env).
  - exact dated_spec.
Qed.

(* ================================================================= *)
(** ** Further properties of [syncToR2] *)

Ltac run_cases X :=
  destruct X as [Hc | Hc Hm | b1 b2 b3 b4 b5 p1 p2 p3 p4 p5 tl r Hc Hm H1 H2 H3 H4 H5 Ht].

(** X1.  The push command is started only in a call whose mount succeeded and
    whose guard check ran to the end and printed its marker, with no call of
    the restore step or of the guard rejected. *)
Theorem push_requires_guard sandbox env :
  push_executed (trace_of sandbox env) = true ->
  In (EvMount true) (trace_of sandbox env)
  /\ guard_confirmed (trace_of sandbox env) = true
  /\ rejected checkCmd (trace_of sandbox env) = false
  /\ rejected restoreCmd (trace_of sandbox env) = false.
Proof.
  with_execution sandbox env. run_cases X.
  - discriminate.
  - discriminate.
  - unfold guard_confirmed.
    invert_tail Ht; obs; try (intros; discriminate);
      match goal with H : stdout_includes _ _ = _ |- _ => rewrite H end;
      intros _; (split; [left; reflexivity | repeat split; reflexivity]).
Qed.

(** X2.  A rejected call of the push step or of the marker read-back (the push
    command, its await, the [cat] command, its await, either [getLogs])
    ends the call with [Sync error] and the message of the error thrown. *)
Theorem push_rejection_is_sync_error sandbox env ev err :
  In ev (trace_of sandbox env) ->
  about syncCmd ev = true \/ about timestampCmd ev = true ->
  rejection_of ev = Some err ->
  result_of sandbox env =
    Resolved {| success := false; lastSync := None;
                error := Some (js "Sync error");
                details := Some (error_message err) |}.
Proof.
  intros Hin Hab Hrej.
  exact (push_rejection sandbox env ev err Hin Hab Hrej).
Qed.

Lemma Execution_classified sandbox env t r :
  Execution sandbox env t r -> success r = true \/ classified r = true.
Proof.
  intros X. run_cases X.
  - right; reflexivity.
  - right; reflexivity.
  - invert_tail Ht; first [ left; reflexivity | right; reflexivity ].
Qed.

(** X3.  Every call ends in success or in a failure whose [error] is one of the
    seven classifications of the source; nothing else is ever reported. *)
Theorem failures_are_classified sandbox env :
  exists r,
    result_of sandbox env = Resolved r
    /\ (success r = true \/ classified r = true).
Proof.
  destruct (run_execution sandbox env) as (t & r & E & X).
  exists r. split.
  - unfold result_of. now rewrite E.
  - exact (Execution_classified _ _ _ _ X).
Qed.

Lemma started_commands_app t1 t2 :
  started_commands (t1 ++ t2) = started_commands t1 ++ started_commands t2.
Proof.
  induction t1 as [|e t1 IH]; [reflexivity | ].
  destruct e; cbn [app started_commands]; rewrite IH; reflexivity.
Qed.

Lemma ProbeRun_started_commands cmd marker es b :
  ProbeRun cmd marker es b -> started_commands es = [cmd].
Proof. intros H; destruct H; reflexivity. Qed.

Lemma is_subsequence_In xs ys :
  is_subsequence xs ys = true -> forall x, In x xs -> In x ys.
Proof.
  revert xs. induction ys as [|y ys IH]; intros xs H z Hz.
  - destruct xs; [destruct Hz | discriminate H].
  - destruct xs as [|x xs]; [destruct Hz | ].
    cbn in H. destruct (String.eqb_spec x y) as [-> | Hxy].
    + destruct Hz as [<- | Hz];
        [left; reflexivity | right; exact (IH _ H z Hz)].
    + right. exact (IH _ H z Hz).
Qed.

Lemma is_subsequence_NoDup xs ys :
  is_subsequence xs ys = true -> NoDup ys -> NoDup xs.
Proof.
  revert xs. induction ys as [|y ys IH]; intros xs H Hnd.
  - destruct xs; [constructor | discriminate H].
  - destruct xs as [|x xs]; [constructor | ].
    inversion Hnd as [|? ? Hy Hys]; subst. cbn in H.
    destruct (String.eqb_spec x y) as [-> | Hxy].
    + constructor; [ | exact (IH _ H Hys)].
      intros Hin. apply Hy. exact (is_subsequence_In _ _ H y Hin).
    + exact (IH _ H Hys).
Qed.

Lemma all_commands_NoDup : NoDup all_commands.
Proof.
  unfold all_commands. repeat constructor; cbn [In]; intros H;
    repeat (destruct H as [H | H];
            [ apply String.eqb_eq in H; revert H; cmd_eqb; discriminate | ]);
    exact H.
Qed.

Lemma commands_subsequence sandbox env :
  is_subsequence (started_commands (trace_of sandbox env)) all_commands = true.
Proof.
  with_execution sandbox env. run_cases X.
  - reflexivity.
  - reflexivity.
  - cbn [started_commands]. rewrite !started_commands_app.
    rewrite (ProbeRun_started_commands _ _ _ _ H1),
            (ProbeRun_started_commands _ _ _ _ H2),
            (ProbeRun_started_commands _ _ _ _ H3),
            (ProbeRun_started_commands _ _ _ _ H4),
            (ProbeRun_started_commands _ _ _ _ H5).
    invert_tail Ht;
      cbn [app started_commands]; unfold all_commands;
      cbn [is_subsequence]; cmd_eqb; reflexivity.
Qed.

(** X4.  The commands a call starts are a subsequence of the nine command lines
    in source order: remote probe, four local probes, restore, guard, push,
    marker read-back.  So no command is ever started twice (no retry) and
    none out of order. *)
Theorem commands_started_in_order sandbox env :
  is_subsequence (started_commands (trace_of sandbox env)) all_commands = true
  /\ NoDup (started_commands (trace_of sandbox env)).
Proof.
  split.
  - apply commands_subsequence.
  - exact (is_subsequence_NoDup _ _ (commands_subsequence sandbox env)
                                all_commands_NoDup).
Qed.

(** X5.  A successful result is only returned by a call that mounted the store,
    passed the guard, started the push and read the marker back, with no
    call of restore, guard, push or read-back rejected.  (A probe may have
    failed: probes are fail-soft.) *)
Theorem success_means_clean_run sandbox env r :
  result_of sandbox env = Resolved r ->
  success r = true ->
  In (EvMount true) (trace_of sandbox env)
  /\ guard_confirmed (trace_of sandbox env) = true
  /\ push_executed (trace_of sandbox env) = true
  /\ started timestampCmd (trace_of sandbox env) = true
  /\ rejected restoreCmd (trace_of sandbox env) = false
  /\ rejected checkCmd (trace_of sandbox env) = false
  /\ rejected syncCmd (trace_of sandbox env) = false
  /\ rejected timestampCmd (trace_of sandbox env) = false.
Proof.
  with_execution sandbox env. intros Hres Hsucc. injection Hres as ->.
  run_cases X; try discriminate Hsucc.
  unfold guard_confirmed.
  invert_tail Ht; try discriminate Hsucc; obs;
    match goal with H : stdout_includes _ _ = _ |- _ => rewrite H end;
    (split; [left; reflexivity | repeat split; reflexivity]).
Qed.

Lemma ProbeRun_waits cmd marker es b p z reply :
  ProbeRun cmd marker es b ->
  In (EvWait p z reply) es ->
  proc_command p = cmd /\ z = 5000%Z.
Proof.
  intros H Hin; destruct H; in_cases Hin; try discriminate Hin;
    injection Hin as <- <- _; split; reflexivity.
Qed.

(** X6.  Every await of a process carries a limit: 30000 for the two bulk
    mirrors (restore and push), 5000 for the probes, the guard's check and
    the marker read-back.  Nothing is awaited without a bound. *)
Theorem waits_are_bounded sandbox env p z reply :
  In (EvWait p z reply) (trace_of sandbox env) ->
  z = wait_limit (proc_command p).
Proof.
  with_execution sandbox env. intros Hin. run_cases X.
  - destruct Hin.
  - in_cases Hin. discriminate Hin.
  - assert (Hprobe : forall cmd marker es b,
               ProbeRun cmd marker es b ->
               In (EvWait p z reply) es ->
               wait_limit cmd = 5000%Z ->
               z = wait_limit (proc_command p)).
    { intros cmd marker es b Hp Hi Hl.
      destruct (ProbeRun_waits _ _ _ _ _ _ _ Hp Hi) as [-> ->].
      now rewrite Hl. }
    assert (L1 : wait_limit r2SyncCmd = 5000%Z)
      by (unfold wait_limit; cmd_eqb; reflexivity).
    assert (L2 : wait_limit localSyncCmd = 5000%Z)
      by (unfold wait_limit; cmd_eqb; reflexivity).
    assert (L3 : wait_limit userCmd = 5000%Z)
      by (unfold wait_limit; cmd_eqb; reflexivity).
    assert (L4 : wait_limit soulCmd = 5000%Z)
      by (unfold wait_limit; cmd_eqb; reflexivity).
    assert (L5 : wait_limit memoryCmd = 5000%Z)
      by (unfold wait_limit; cmd_eqb; reflexivity).
    apply in_inv in Hin. destruct Hin as [Hin | Hin]; [discriminate Hin | ].
    apply in_app_or in Hin. destruct Hin as [Hin | Hin]; [exact (Hprobe _ _ _ _ H1 Hin L1) | ].
    apply in_app_or in Hin. destruct Hin as [Hin | Hin]; [exact (Hprobe _ _ _ _ H2 Hin L2) | ].
    apply in_app_or in Hin. destruct Hin as [Hin | Hin]; [exact (Hprobe _ _ _ _ H3 Hin L3) | ].
    apply in_app_or in Hin. destruct Hin as [Hin | Hin]; [exact (Hprobe _ _ _ _ H4 Hin L4) | ].
    apply in_app_or in Hin. destruct Hin as [Hin | Hin]; [exact (Hprobe _ _ _ _ H5 Hin L5) | ].
    clear Hprobe L1 L2 L3 L4 L5 H1 H2 H3 H4 H5.
    invert_tail Ht; in_cases Hin; try discriminate Hin;
      injection Hin as <- <- _;
      unfold wait_limit; cbn [proc_command]; cmd_eqb; reflexivity.
Qed.

(** X7.  Each step that completes hands over to the next: past the mount all
    five probes are started; a restore that was not rejected is followed by
    the guard's check; a guard that printed its marker is followed by the
    push; and a push whose start and await were not rejected is followed by
    the marker read-back. *)
Theorem steps_progress sandbox env :
  (credentials_missing env = false ->
   mount_reply sandbox env [] = true ->
   forallb (fun cm => started (fst cm) (trace_of sandbox env)) probes = true)
  /\ (restore_executed (trace_of sandbox env) = true ->
      rejected restoreCmd (trace_of sandbox env) = false ->
      guard_executed (trace_of sandbox env) = true)
  /\ (guard_confirmed (trace_of sandbox env) = true ->
      push_executed (trace_of sandbox env) = true)
  /\ (push_executed (trace_of sandbox env) = true ->
      rejected syncCmd (trace_of sandbox env) = false ->
      started timestampCmd (trace_of sandbox env) = true).
Proof.
  with_execution sandbox env.
  split; [ | split; [ | split ] ].
  - intros Hcred Hmount. run_cases X; try congruence.
    unfold probes, forallb; cbn [fst]. split_obs. reflexivity.
  - run_cases X; try discriminate.
    invert_tail Ht; obs; intros; discriminate || reflexivity.
  - unfold guard_confirmed. run_cases X; try discriminate.
    invert_tail Ht; obs; try (intros; discriminate);
      match goal with H : stdout_includes _ _ = _ |- _ => rewrite H end;
      intros; discriminate || reflexivity.
  - run_cases X; try discriminate.
    invert_tail Ht; obs; intros; discriminate || reflexivity.
Qed.

Lemma restore_cooperative sandbox env need t :
  Cooperative sandbox env ->
  exists t', restore_block sandbox need t = (Normal tt, t').
Proof.
  intros C. unfold restore_block. destruct need.
  - unfold_calls.
    destruct (coop_start _ _ C t restoreCmd) as [n ->].
    rewrite (coop_wait _ _ C). eexists; reflexivity.
  - eexists; reflexivity.
Qed.

Lemma guard_cooperative sandbox env t :
  Cooperative sandbox env ->
  exists t', guard_block sandbox t = (Normal tt, t').
Proof.
  intros C. unfold guard_block. unfold_calls.
  destruct (coop_start _ _ C t checkCmd) as [n ->].
  rewrite (coop_wait _ _ C).
  match goal with |- context [logs_reply sandbox ?t' ?p] =>
    destruct (coop_guard _ _ C t' p eq_refl) as (l & -> & Hok) end.
  rewrite Hok. eexists; reflexivity.
Qed.

Lemma push_cooperative sandbox env t :
  Cooperative sandbox env ->
  exists t' l,
    push_block sandbox t = (Returned (synced (option_map trim (stdout l))), t')
    /\ dated (option_map trim (stdout l)) = true.
Proof.
  intros C. unfold push_block. unfold_calls.
  destruct (coop_start _ _ C t syncCmd) as [n ->].
  rewrite (coop_wait _ _ C).
  match goal with |- context [start_reply sandbox ?t' timestampCmd] =>
    destruct (coop_start _ _ C t' timestampCmd) as [m ->] end.
  rewrite (coop_wait _ _ C).
  match goal with |- context [logs_reply sandbox ?t' ?p] =>
    destruct (coop_marker _ _ C t' p eq_refl) as (l & -> & Hd) end.
  cbv zeta. rewrite truthy_and_dated_dated, Hd.
  eexists; exists l. split; [reflexivity | exact Hd].
Qed.

Lemma cooperative_result sandbox env :
  credentials_missing env = false ->
  Cooperative sandbox env ->
  exists marker,
    result_of sandbox env =
      Resolved {| success := true; lastSync := Some marker;
                  error := None; details := None |}
    /\ matches_date_prefix marker = true.
Proof.
  intros Hcred C. unfold result_of, run. rewrite syncToR2_blocks, Hcred.
  unfold bind at 1, mountR2Storage. rewrite (coop_mount _ _ C). cbn [negb].
  repeat match goal with
  | |- context [bind (probe sandbox ?c ?m) _ ?t] =>
      let es := fresh "es" in
      let b := fresh "b" in
      let E := fresh "E" in
      destruct (probe_run sandbox c m t) as (es & b & E & _);
      rewrite (bind_normal _ _ _ _ _ E); clear E
  end.
  match goal with |- context [bind (restore_block sandbox ?need) _ ?t] =>
    destruct (restore_cooperative sandbox env need t C) as (tr & Er) end.
  rewrite (bind_normal _ _ _ _ _ Er).
  destruct (guard_cooperative sandbox env tr C) as (tg & Eg).
  rewrite (bind_normal _ _ _ _ _ Eg).
  destruct (push_cooperative sandbox env tg C) as (tp & l & Ep & Hd).
  rewrite Ep. cbn [fst settle].
  destruct (option_map trim (stdout l)) as [marker|] eqn:Hm;
    [ | discriminate Hd ].
  exists marker. split; [reflexivity | exact Hd].
Qed.

(** X8.  On a cooperative sandbox (mount succeeds, commands start and finish in
    time, the guard's check prints its marker, the marker read back holds a
    date) a configured call succeeds, and [lastSync] is the trimmed output
    that [getLogs] of the [cat] process returned in this call, whatever the
    five probes report and whether or not restore runs. *)
Theorem cooperative_sandbox_succeeds sandbox env :
  credentials_missing env = false ->
  Cooperative sandbox env ->
  exists p l marker,
    In (EvLogs p (inr l)) (trace_of sandbox env)
    /\ proc_command p = timestampCmd
    /\ option_map trim (stdout l) = Some marker
    /\ matches_date_prefix marker = true
    /\ result_of sandbox env =
         Resolved {| success := true; lastSync := Some marker;
                     error := None; details := None |}.
Proof.
  intros Hcred C.
  destruct (cooperative_result sandbox env Hcred C) as (marker & Hres & Hm).
  destruct (success_from_marker sandbox env _ Hres eq_refl)
    as (p & l & Hin & Hcmd & _ & Hl).
  cbn [lastSync] in Hl.
  exists p, l, marker. repeat split; auto.
Qed.

End Sync.

(* ================================================================= *)
(** ** The model at work *)

Example includes_examples :
  includes (js "ok") (js "ok" ++ newline) = true
  /\ includes (js "ok") (js "o k") = false
  /\ includes (js "ok") (js "not ok") = true
  /\ includes (js "r2") [] = false
  /\ includes [] [] = true.
Proof. repeat split. Qed.

Example trim_examples :
  trim (js "  2026-11-03T10:00:00+00:00" ++ newline) = js "2026-11-03T10:00:00+00:00"
  /\ trim (newline ++ js " ") = []
  /\ trim (js "a b") = js "a b"
  /\ trim (65279%N :: js "2026-11-03" ++ [8232%N; 12288%N]) = js "2026-11-03".
Proof. repeat split. Qed.

Example matches_date_prefix_examples :
  matches_date_prefix (js "2026-11-03T10:00:00+00:00") = true
  /\ matches_date_prefix (js "2026-11-03") = true
  /\ matches_date_prefix (js "2026-1-03") = false
  /\ matches_date_prefix (js " 2026-11-03") = false
  /\ matches_date_prefix (js "2026/11/03") = false
  /\ matches_date_prefix (js "cat: no such file") = false
  /\ matches_date_prefix [] = false.
Proof. repeat split. Qed.

Example js_or_examples :
  js_or (js_or (Some (js "err")) (Some (js "out"))) (Some (js "fixed")) = Some (js "err")
  /\ js_or (js_or (Some []) (Some (js "out"))) (Some (js "fixed")) = Some (js "out")
  /\ js_or (js_or None (Some [])) (Some (js "fixed")) = Some (js "fixed").
Proof. repeat split. Qed.

Example first_sync_run :
  result_of mount_path (first_sync mount_path) full_env =
    Resolved {| success := true;
                lastSync := Some (js "2026-11-03T10:00:00+00:00");
                error := None; details := None |}
  /\ restore_executed mount_path (trace_of mount_path (first_sync mount_path) full_env) = false
  /\ push_executed mount_path (trace_of mount_path (first_sync mount_path) full_env) = true
  /\ length (trace_of mount_path (first_sync mount_path) full_env) = 24.
Proof. vm_compute. repeat split. Qed.

Example unconfirmed_push_run :
  result_of mount_path (unconfirmed_push mount_path) full_env =
    Resolved {| success := false; lastSync := None;
                error := Some (js "Sync failed");
                details := Some (js "rsync: write failed") |}.
Proof. vm_compute. reflexivity. Qed.

Example lost_push_logs_run :
  result_of mount_path (lost_push_logs mount_path) full_env =
    Resolved {| success := false; lastSync := None;
                error := Some (js "Sync error");
                details := Some (js "process is gone") |}.
Proof. vm_compute. reflexivity. Qed.

Example stuck_guard_run :
  result_of mount_path stuck_guard full_env =
    Resolved {| success := false; lastSync := None;
                error := Some (js "Failed to verify source files");
                details := Some (js "Unknown error") |}
  /\ push_executed mount_path (trace_of mount_path stuck_guard full_env) = false.
Proof. vm_compute. split; reflexivity. Qed.

Example slow_restore_run :
  result_of mount_path (slow_restore mount_path) full_env =
    Resolved {| success := false; lastSync := None;
                error := Some (js "Restore failed");
                details := Some (js "Process timed out") |}
  /\ guard_executed (trace_of mount_path (slow_restore mount_path) full_env) = false.
Proof. vm_compute. split; reflexivity. Qed.

Lemma every_probe_combination r2 loc user soul memory :
  let t := trace_of mount_path (answering mount_path r2 loc user soul memory) full_env in
  r2HasSync mount_path t = r2
  /\ localHasSync t = loc
  /\ localHasUser t = user
  /\ localHasSoul t = soul
  /\ localHasMemory t = memory.
Proof.
  destruct r2, loc, user, soul, memory; vm_compute; repeat split.
Qed.

(* ================================================================= *)
(** ** The theorems at concrete inputs *)

Lemma guard_missing_never_pushes_witness :
  guard_found_missing (trace_of mount_path empty_container full_env) = true
  /\ result_of mount_path empty_container full_env =
       Resolved {| success := false; lastSync := None;
                   error := Some (js "Sync aborted: source missing clawdbot.json");
                   details := Some (js "The local config directory is missing critical files. This could indicate corruption or an incomplete setup.") |}
  /\ push_executed mount_path (trace_of mount_path empty_container full_env) = false.
Proof.
  assert (H : guard_found_missing (trace_of mount_path empty_container full_env) = true)
    by (vm_compute; reflexivity).
  split; [exact H | ].
  exact (guard_missing_never_pushes mount_path empty_container full_env H).
Defined.

Lemma credential_gate_witness :
  truthy (R2_ACCESS_KEY_ID no_access_key) = false
  /\ run mount_path (first_sync mount_path) no_access_key =
       (Resolved {| success := false; lastSync := None;
                    error := Some (js "R2 storage is not configured");
                    details := None |},
        []).
Proof.
  split; [reflexivity | ].
  apply (credential_gate mount_path (first_sync mount_path) no_access_key).
  left. reflexivity.
Defined.

Lemma mount_failure_result_witness :
  mount_reply unmountable full_env [] = false
  /\ run mount_path unmountable full_env =
       (Resolved {| success := false; lastSync := None;
                    error := Some (js "Failed to mount R2 storage");
                    details := None |},
        [EvMount false]).
Proof.
  split; [reflexivity | ].
  apply (mount_failure_result mount_path unmountable full_env); reflexivity.
Defined.

Lemma restore_trigger_witness :
  credentials_missing full_env = false
  /\ mount_reply (first_sync mount_path) full_env [] = true
  /\ restore_executed mount_path (trace_of mount_path (first_sync mount_path) full_env) = false
  /\ exists pre reply post,
       trace_of mount_path (first_sync mount_path) full_env =
         EvMount true :: pre ++ EvStart checkCmd reply :: post
       /\ Forall (fun e => probe_event mount_path e = true) pre.
Proof.
  assert (H : restore_executed mount_path (trace_of mount_path (first_sync mount_path) full_env) = false)
    by (vm_compute; reflexivity).
  repeat split; try reflexivity; try exact H.
  exact (proj2 (restore_trigger mount_path (first_sync mount_path) full_env)
               eq_refl eq_refl H).
Defined.

Lemma marker_decides_success_witness :
  In (EvLogs (mkProcess 21 (timestampCmd mount_path)) (inr bom_marker_logs))
     (trace_of mount_path (marker_with_bom mount_path) full_env)
  /\ dated (option_map trim (stdout bom_marker_logs)) = true
  /\ result_of mount_path (marker_with_bom mount_path) full_env =
       Resolved {| success := true;
                   lastSync := Some (js "2026-11-03T10:00:00+00:00");
                   error := None; details := None |}.
Proof.
  assert (Hin : In (EvLogs (mkProcess 21 (timestampCmd mount_path))
                           (inr bom_marker_logs))
                   (trace_of mount_path (marker_with_bom mount_path) full_env)).
  { vm_compute. repeat (first [left; reflexivity | right]). }
  assert (Hd : dated (option_map trim (stdout bom_marker_logs)) = true)
    by reflexivity.
  split; [exact Hin | split; [exact Hd | ]].
  exact (proj1 (proj1 (marker_decides_success mount_path
                         (marker_with_bom mount_path) full_env)
                      (mkProcess 21 (timestampCmd mount_path)) bom_marker_logs
                      Hin eq_refl)
               Hd).
Defined.

(** C4 as the claim words it fails: here the marker read back is empty, the
    logs of the push process cannot be fetched, and the call ends in
    [Sync error], not in [Sync failed]. *)
Lemma marker_decides_success_counterexample :
  result_of mount_path (lost_push_logs mount_path) full_env =
    Resolved {| success := false; lastSync := None;
                error := Some (js "Sync error");
                details := Some (js "process is gone") |}
  /\ ~ malformed_marker_is_sync_failed mount_path
        (lost_push_logs mount_path) full_env.
Proof.
  split; [vm_compute; reflexivity | ].
  intros H.
  destruct (H (mkProcess 21 (timestampCmd mount_path))
              {| stdout := Some []; stderr := Some [] |}) as [d Hd].
  - vm_compute. repeat (first [left; reflexivity | right]).
  - reflexivity.
  - reflexivity.
  - vm_compute in Hd. discriminate Hd.
Qed.

Lemma restore_failure_aborts_witness :
  In (timed_out_wait mount_path) (trace_of mount_path (slow_restore mount_path) full_env)
  /\ about (restoreCmd mount_path) (timed_out_wait mount_path) = true
  /\ rejection_of (timed_out_wait mount_path) = Some (JsError (js "Process timed out"))
  /\ result_of mount_path (slow_restore mount_path) full_env =
       Resolved {| success := false; lastSync := None;
                   error := Some (js "Restore failed");
                   details := Some (js "Process timed out") |}
  /\ guard_executed (trace_of mount_path (slow_restore mount_path) full_env) = false
  /\ push_executed mount_path (trace_of mount_path (slow_restore mount_path) full_env) = false.
Proof.
  assert (Hin : In (timed_out_wait mount_path) (trace_of mount_path (slow_restore mount_path) full_env)).
  { vm_compute. repeat (first [left; reflexivity | right]). }
  assert (Hab : about (restoreCmd mount_path) (timed_out_wait mount_path) = true)
    by (vm_compute; reflexivity).
  split; [exact Hin | split; [exact Hab | split; [reflexivity | ]]].
  exact (proj1 (restore_failure_aborts mount_path (slow_restore mount_path) full_env)
               (timed_out_wait mount_path) (JsError (js "Process timed out")) Hin Hab eq_refl).
Defined.


Lemma guard_failure_modes_witness :
  guard_found_missing (trace_of mount_path empty_container full_env) = true
  /\ result_of mount_path empty_container full_env = Resolved source_missing
  /\ push_executed mount_path (trace_of mount_path empty_container full_env) = false
  /\ rejected checkCmd (trace_of mount_path empty_container full_env) = false.
Proof.
  assert (H : guard_found_missing (trace_of mount_path empty_container full_env) = true)
    by (vm_compute; reflexivity).
  split; [exact H | ].
  exact (proj1 (guard_failure_modes mount_path empty_container full_env) H).
Defined.

(* ================================================================= *)
(** ** The further properties at concrete inputs *)

Lemma push_requires_guard_witness :
  push_executed mount_path (trace_of mount_path (first_sync mount_path) full_env) = true
  /\ guard_confirmed (trace_of mount_path (first_sync mount_path) full_env) = true.
Proof.
  assert (H : push_executed mount_path
                (trace_of mount_path (first_sync mount_path) full_env) = true)
    by (vm_compute; reflexivity).
  split; [exact H | ].
  exact (proj1 (proj2 (push_requires_guard mount_path (first_sync mount_path)
                                           full_env H))).
Defined.

Lemma push_rejection_is_sync_error_witness :
  In (push_wait_rejected mount_path) (trace_of mount_path (push_times_out mount_path) full_env)
  /\ result_of mount_path (push_times_out mount_path) full_env =
       Resolved {| success := false; lastSync := None;
                   error := Some (js "Sync error");
                   details := Some (js "Process timed out") |}.
Proof.
  assert (Hin : In (push_wait_rejected mount_path) (trace_of mount_path (push_times_out mount_path) full_env)).
  { vm_compute. repeat (first [left; reflexivity | right]). }
  split; [exact Hin | ].
  apply (push_rejection_is_sync_error mount_path (push_times_out mount_path) full_env
           (push_wait_rejected mount_path) (JsError (js "Process timed out")) Hin).
  - left. vm_compute. reflexivity.
  - reflexivity.
Defined.

Lemma success_means_clean_run_witness :
  push_executed mount_path (trace_of mount_path (first_sync mount_path) full_env) = true
  /\ rejected (syncCmd mount_path)
       (trace_of mount_path (first_sync mount_path) full_env) = false.
Proof.
  assert (H : result_of mount_path (first_sync mount_path) full_env =
              Resolved (synced (Some (js "2026-11-03T10:00:00+00:00"))))
    by (vm_compute; reflexivity).
  destruct (success_means_clean_run mount_path (first_sync mount_path) full_env
              _ H eq_refl) as (_ & _ & Hp & _ & _ & _ & Hr & _).
  split; [exact Hp | exact Hr].
Defined.

Lemma waits_are_bounded_witness :
  In (EvWait (mkProcess 1 (r2SyncCmd mount_path)) 5000 (inr tt))
     (trace_of mount_path (first_sync mount_path) full_env)
  /\ 5000%Z = wait_limit mount_path (r2SyncCmd mount_path).
Proof.
  assert (Hin : In (EvWait (mkProcess 1 (r2SyncCmd mount_path)) 5000 (inr tt))
                   (trace_of mount_path (first_sync mount_path) full_env)).
  { vm_compute. repeat (first [left; reflexivity | right]). }
  split; [exact Hin | ].
  exact (waits_are_bounded mount_path (first_sync mount_path) full_env _ _ _ Hin).
Defined.

Lemma steps_progress_witness :
  guard_confirmed (trace_of mount_path (first_sync mount_path) full_env) = true
  /\ push_executed mount_path (trace_of mount_path (first_sync mount_path) full_env) = true.
Proof.
  assert (H : guard_confirmed (trace_of mount_path (first_sync mount_path) full_env) = true)
    by (vm_compute; reflexivity).
  split; [exact H | ].
  exact (proj1 (proj2 (proj2 (steps_progress mount_path (first_sync mount_path)
                                             full_env))) H).
Defined.

Lemma first_sync_cooperative : Cooperative mount_path (first_sync mount_path) full_env.
Proof.
  constructor.
  - intros t. reflexivity.
  - intros t cmd. exists (length t). reflexivity.
  - intros t p z. reflexivity.
  - intros t p H.
    exists {| stdout := Some (js "ok" ++ newline); stderr := Some [] |}.
    cbn [first_sync scripted logs_reply logs_of]. rewrite H.
    split; vm_compute; reflexivity.
  - intros t p H.
    exists {| stdout := Some (js "2026-11-03T10:00:00+00:00" ++ newline);
              stderr := Some [] |}.
    cbn [first_sync scripted logs_reply logs_of]. rewrite H.
    split; vm_compute; reflexivity.
Defined.

Lemma cooperative_sandbox_succeeds_witness :
  credentials_missing full_env = false
  /\ (exists p l marker,
         In (EvLogs p (inr l))
            (trace_of mount_path (first_sync mount_path) full_env)
         /\ proc_command p = timestampCmd mount_path
         /\ option_map trim (stdout l) = Some marker
         /\ matches_date_prefix marker = true
         /\ result_of mount_path (first_sync mount_path) full_env =
              Resolved {| success := true; lastSync := Some marker;
                          error := None; details := None |})
  /\ result_of mount_path (first_sync mount_path) full_env =
       Resolved {| success := true;
                   lastSync := Some (js "2026-11-03T10:00:00+00:00");
                   error := None; details := None |}.
Proof.
  split; [reflexivity | split].
  - apply (cooperative_sandbox_succeeds mount_path (first_sync mount_path) full_env).
    + reflexivity.
    + exact first_sync_cooperative.
  - vm_compute. reflexivity.
Defined.

(* ================================================================= *)
(** * client/: properties of the helpers and of the API client *)

Module ClientFacts.
Import Client.

(** ** Properties of [escapeHtml] *)

Lemma replaceAll_cons c r x s :
  replaceAll c r (x :: s) = (if N.eqb x c then r else [x]) ++ replaceAll c r s.
Proof. reflexivity. Qed.

Lemma replaceAll_app c r a b :
  replaceAll c r (a ++ b) = replaceAll c r a ++ replaceAll c r b.
Proof. apply flat_map_app. Qed.

Lemma escapeHtml_app a b : escapeHtml (a ++ b) = escapeHtml a ++ escapeHtml b.
Proof. unfold escapeHtml. now rewrite !replaceAll_app. Qed.

Lemma escapeHtml_unit c : escapeHtml [c] = escape_unit c.
Proof.
  unfold escape_unit.
  destruct (N.eqb_spec c u_amp) as [-> | Ha]; [reflexivity | ].
  destruct (N.eqb_spec c u_lt) as [-> | Hl]; [reflexivity | ].
  destruct (N.eqb_spec c u_gt) as [-> | Hg]; [reflexivity | ].
  destruct (N.eqb_spec c u_quot) as [-> | Hq]; [reflexivity | ].
  destruct (N.eqb_spec c u_apos) as [-> | Hp]; [reflexivity | ].
  unfold escapeHtml, replaceAll. cbn [flat_map app].
  apply N.eqb_neq in Ha, Hl, Hg, Hq, Hp.
  rewrite Ha. cbn [flat_map app]. rewrite Hl. cbn [flat_map app].
  rewrite Hg. cbn [flat_map app]. rewrite Hq. cbn [flat_map app].
  rewrite Hp. reflexivity.
Qed.

Lemma escapeHtml_cons c s : escapeHtml (c :: s) = escape_unit c ++ escapeHtml s.
Proof.
  change (c :: s) with ([c] ++ s). now rewrite escapeHtml_app, escapeHtml_unit.
Qed.

Lemma escapeHtml_flat_map (s : JsString) : escapeHtml s = flat_map escape_unit s.
Proof.
  induction s as [|c s IH]; [reflexivity | ].
  rewrite escapeHtml_cons, IH. reflexivity.
Qed.

(** X9.  The five replacements in a row amount to one pass that escapes each
    code unit once: the ampersands that the later replacements introduce
    are not escaped again, because ampersands are replaced first.  So
    escaping goes through concatenation. *)
Theorem escapeHtml_one_pass (s : JsString) :
  escapeHtml s = flat_map escape_unit s
  /\ forall t, escapeHtml (s ++ t) = escapeHtml s ++ escapeHtml t.
Proof.
  split.
  - apply escapeHtml_flat_map.
  - intros t. apply escapeHtml_app.
Qed.

Lemma escape_unit_no_markup c :
  forallb (fun x => negb (is_markup x)) (escape_unit c) = true.
Proof.
  unfold escape_unit.
  destruct (N.eqb_spec c u_amp); [reflexivity | ].
  destruct (N.eqb c u_lt) eqn:Hl; [reflexivity | ].
  destruct (N.eqb c u_gt) eqn:Hg; [reflexivity | ].
  destruct (N.eqb c u_quot) eqn:Hq; [reflexivity | ].
  destruct (N.eqb c u_apos) eqn:Hp; [reflexivity | ].
  cbn [forallb]. unfold is_markup. now rewrite Hl, Hg, Hq, Hp.
Qed.

(** X10.  The output never contains [<], [>], a double quote or an apostrophe:
    escaped text cannot open or close a tag or an attribute value. *)
Theorem escapeHtml_no_markup (s : JsString) :
  forallb (fun x => negb (is_markup x)) (escapeHtml s) = true.
Proof.
  rewrite escapeHtml_flat_map.
  induction s as [|c s IH]; [reflexivity | ].
  cbn [flat_map]. rewrite forallb_app, escape_unit_no_markup, IH. reflexivity.
Qed.

Lemma escape_unit_cases c :
  (needs_escape c = false /\ escape_unit c = [c])
  \/ (c = u_amp /\ escape_unit c = js "&amp;")
  \/ (c = u_lt /\ escape_unit c = js "&lt;")
  \/ (c = u_gt /\ escape_unit c = js "&gt;")
  \/ (c = u_quot /\ escape_unit c = js "&quot;")
  \/ (c = u_apos /\ escape_unit c = js "&#39;").
Proof.
  unfold escape_unit, needs_escape, is_markup.
  destruct (N.eqb_spec c u_amp) as [-> | _]; [right; left; now split | ].
  destruct (N.eqb_spec c u_lt) as [-> | _]; [right; right; left; now split | ].
  destruct (N.eqb_spec c u_gt) as [-> | _];
    [right; right; right; left; now split | ].
  destruct (N.eqb_spec c u_quot) as [-> | _];
    [right; right; right; right; left; now split | ].
  destruct (N.eqb_spec c u_apos) as [-> | _];
    [right; right; right; right; right; now split | ].
  left. now split.
Qed.

Lemma needs_escape_amp c : needs_escape c = false -> c <> u_amp.
Proof. intros H ->. discriminate H. Qed.

(** X11.  Escaping loses nothing: two texts with the same escaped form are the
    same text. *)
Theorem escapeHtml_injective (a b : JsString) : escapeHtml a = escapeHtml b -> a = b.
Proof.
  rewrite !escapeHtml_flat_map. revert b.
  induction a as [|x a IH]; intros [|y b] H.
  - reflexivity.
  - exfalso. cbn [flat_map] in H.
    destruct (escape_unit_cases y) as [[_ E] | [[_ E] | [[_ E] | [[_ E] | [[_ E] | [_ E]]]]]];
      rewrite E in H; discriminate H.
  - exfalso. cbn [flat_map] in H.
    destruct (escape_unit_cases x) as [[_ E] | [[_ E] | [[_ E] | [[_ E] | [[_ E] | [_ E]]]]]];
      rewrite E in H; discriminate H.
  - cbn [flat_map] in H.
    destruct (escape_unit_cases x) as [[Nx Ex] | [[-> Ex] | [[-> Ex] | [[-> Ex] | [[-> Ex] | [-> Ex]]]]]];
    destruct (escape_unit_cases y) as [[Ny Ey] | [[-> Ey] | [[-> Ey] | [[-> Ey] | [[-> Ey] | [-> Ey]]]]]];
      rewrite ?Ex, ?Ey in H; cbn in H;
      try (apply needs_escape_amp in Nx);
      try (apply needs_escape_amp in Ny);
      try discriminate H;
      injection H; intros; subst;
      unfold u_amp in *;
      try congruence;
      f_equal; apply IH; assumption.
Qed.

Lemma escapeHtml_length s : length s <= length (escapeHtml s).
Proof.
  rewrite escapeHtml_flat_map.
  induction s as [|c s IH]; [reflexivity | ].
  cbn [flat_map]. rewrite length_app.
  destruct (escape_unit_cases c) as [[_ E] | [[_ E] | [[_ E] | [[_ E] | [[_ E] | [_ E]]]]]];
    rewrite E; cbn [length js map list_ascii_of_string]; cbn; lia.
Qed.

(** X12.  Text is returned unchanged exactly when it holds none of the five
    characters [&], [<], [>], double quote and apostrophe. *)
Theorem escapeHtml_fixed_point (s : JsString) :
  escapeHtml s = s <-> forallb (fun c => negb (needs_escape c)) s = true.
Proof.
  induction s as [|c s IH]; [split; reflexivity | ].
  rewrite escapeHtml_cons. cbn [forallb]. split.
  - intros H.
    destruct (escape_unit_cases c) as [[Nc E] | [[-> E] | [[-> E] | [[-> E] | [[-> E] | [-> E]]]]]];
      rewrite E in H; cbn in H; try discriminate H.
    + rewrite Nc. cbn [negb andb]. apply IH. now injection H.
    + exfalso. injection H as H.
      pose proof (escapeHtml_length s) as L. rewrite <- H in L at 1.
      cbn [length] in L. lia.
  - intros H. apply andb_true_iff in H. destruct H as [Hc Hs].
    apply negb_true_iff in Hc.
    destruct (escape_unit_cases c) as [[_ E] | [[-> _] | [[-> _] | [[-> _] | [[-> _] | [-> _]]]]]];
      try discriminate Hc.
    rewrite E. cbn [app]. f_equal. now apply IH.
Qed.

(** ** Properties of [trim] and [sanitizeUrl] *)

Lemma trimStart_head s :
  trimStart s = []
  \/ exists c r, trimStart s = c :: r /\ is_white_space c = false.
Proof.
  induction s as [|c s IH]; [left; reflexivity | ].
  cbn [trimStart]. destruct (is_white_space c) eqn:E; [exact IH | ].
  right. exists c, s. now split.
Qed.

Lemma trimEnd_cons_solid c s :
  is_white_space c = false -> trimEnd (c :: s) = c :: trimEnd s.
Proof. intros E. cbn [trimEnd]. rewrite E. now destruct (trimEnd s). Qed.

Lemma trimEnd_idempotent s : trimEnd (trimEnd s) = trimEnd s.
Proof.
  induction s as [|c s IH]; [reflexivity | ].
  cbn [trimEnd]. destruct (trimEnd s) as [|x r] eqn:E.
  - destruct (is_white_space c) eqn:W; [reflexivity | ].
    cbn [trimEnd]. now rewrite W.
  - cbn [trimEnd] in IH |- *. cbn [trimEnd]. rewrite IH. reflexivity.
Qed.

Lemma trim_idempotent s : trim (trim s) = trim s.
Proof.
  unfold trim. destruct (trimStart_head s) as [-> | (c & r & -> & W)].
  - reflexivity.
  - rewrite (trimEnd_cons_solid c r W). cbn [trimStart]. rewrite W.
    rewrite <- (trimEnd_cons_solid c r W). apply trimEnd_idempotent.
Qed.

(** X13.  Sanitizing is stable: a sanitized URL passes through unchanged. *)
Theorem sanitizeUrl_idempotent (url : JsString) :
  sanitizeUrl (sanitizeUrl url) = sanitizeUrl url.
Proof.
  unfold sanitizeUrl. cbv zeta.
  destruct (is_http_or_rooted (trim url)) eqn:E.
  - rewrite trim_idempotent, E. reflexivity.
  - reflexivity.
Qed.

Lemma starts_with_ci_head literal l s :
  starts_with_ci (l :: literal) s = true ->
  exists c r, s = c :: r /\ fold_case c = fold_case l.
Proof.
  destruct s as [|c r]; [discriminate | ].
  cbn [starts_with_ci]. intros H. apply andb_true_iff in H.
  destruct H as [H _]. apply N.eqb_eq in H. exists c, r. now split.
Qed.

Lemma fold_case_h c : fold_case c = 104%N -> c = 104%N \/ c = 72%N.
Proof.
  unfold fold_case.
  destruct ((65 <=? c) && (c <=? 90))%N eqn:E; intros H; [right | left; exact H].
  lia.
Qed.

Lemma fold_case_slash c : fold_case c = 47%N -> c = 47%N.
Proof.
  unfold fold_case.
  destruct ((65 <=? c) && (c <=? 90))%N eqn:E; intros H; [ | exact H].
  apply andb_true_iff in E. destruct E as [E _]. apply N.leb_le in E. lia.
Qed.

(** X14.  The result is never empty and starts with [#], [/], [h] or [H]: no
    leading white space survives, and no scheme other than one spelled
    [http...] can come out; in particular never [javascript:], however it
    is capitalised or padded in the input. *)
Theorem sanitizeUrl_first_unit (url : JsString) :
  (exists c rest,
      sanitizeUrl url = c :: rest
      /\ (c = u_hash \/ c = u_slash \/ c = 104%N \/ c = 72%N))
  /\ starts_with_ci (js "javascript:") (sanitizeUrl url) = false.
Proof.
  assert (H : exists c rest,
             sanitizeUrl url = c :: rest
             /\ (c = u_hash \/ c = u_slash \/ c = 104%N \/ c = 72%N)).
  { unfold sanitizeUrl. cbv zeta.
    destruct (is_http_or_rooted (trim url)) eqn:E.
    - unfold is_http_or_rooted in E.
      apply orb_true_iff in E. destruct E as [E | E];
        [apply orb_true_iff in E; destruct E as [E | E] | ];
        apply starts_with_ci_head in E; destruct E as (c & r & -> & F);
        exists c, r; (split; [reflexivity | ]).
      + apply fold_case_h in F. tauto.
      + apply fold_case_h in F. tauto.
      + apply fold_case_slash in F. tauto.
    - exists u_hash, []. split; [reflexivity | now left]. }
  split; [exact H | ].
  destruct H as (c & rest & -> & [-> | [-> | [-> | ->]]]); reflexivity.
Qed.

(** ** Properties of [interpolate] *)

Lemma span_word_spec s key rest :
  span_word s = (key, rest) ->
  s = key ++ rest /\ forallb is_word key = true.
Proof.
  revert key rest. induction s as [|c s IH]; intros key rest H.
  - injection H as <- <-. now split.
  - cbn [span_word] in H. destruct (is_word c) eqn:W.
    + destruct (span_word s) as [k r]. injection H as <- <-.
      destruct (IH k r eq_refl) as [-> Hk]. split; [reflexivity | ].
      cbn [forallb]. now rewrite W.
    + injection H as <- <-. now split.
Qed.

Lemma match_placeholder_spec s key rest :
  match_placeholder s = Some (key, rest) ->
  s = key ++ u_rbrace :: rest /\ key <> [] /\ forallb is_word key = true.
Proof.
  unfold match_placeholder. destruct (span_word s) as [k r] eqn:E.
  destruct k as [|x k]; [discriminate | ].
  destruct r as [|c r]; [discriminate | ].
  destruct (N.eqb_spec c u_rbrace) as [-> | _]; [ | discriminate].
  intros H. injection H as <- <-.
  destruct (span_word_spec _ _ _ E) as [-> W].
  repeat split; [discriminate | exact W].
Qed.

Lemma span_word_stop key c rest :
  forallb is_word key = true -> is_word c = false ->
  span_word (key ++ c :: rest) = (key, c :: rest).
Proof.
  intros Hk Hc. induction key as [|x key IH].
  - cbn [app span_word]. now rewrite Hc.
  - cbn [forallb] in Hk. apply andb_true_iff in Hk. destruct Hk as [Hx Hk].
    cbn [app span_word]. rewrite Hx, (IH Hk). reflexivity.
Qed.

Lemma match_placeholder_found key rest :
  key <> [] -> forallb is_word key = true ->
  match_placeholder (key ++ u_rbrace :: rest) = Some (key, rest).
Proof.
  intros Hne Hk. unfold match_placeholder.
  rewrite (span_word_stop key u_rbrace rest Hk eq_refl).
  destruct key; [contradiction | reflexivity].
Qed.

Lemma replace_placeholders_fuel vars fuel1 :
  forall fuel2 s,
    length s <= fuel1 -> length s <= fuel2 ->
    replace_placeholders fuel1 vars s = replace_placeholders fuel2 vars s.
Proof.
  induction fuel1 as [|fuel1 IH]; intros fuel2 s L1 L2.
  - destruct s; [ | cbn in L1; lia]. now destruct fuel2.
  - destruct fuel2 as [|fuel2]; [destruct s; [reflexivity | cbn in L2; lia] | ].
    destruct s as [|c rest]; [reflexivity | ].
    cbn [length] in L1, L2. cbn [replace_placeholders].
    destruct (N.eqb c u_lbrace).
    + destruct (match_placeholder rest) as [[key rest'] | ] eqn:E.
      * apply match_placeholder_spec in E. destruct E as (-> & _ & _).
        rewrite length_app in L1, L2. cbn [length] in L1, L2.
        f_equal. apply IH; lia.
      * f_equal. apply IH; lia.
    + f_equal. apply IH; lia.
Qed.

Lemma starts_with_app n r : starts_with n (n ++ r) = true.
Proof.
  induction n as [|x n IH]; [reflexivity | ].
  cbn [app starts_with]. now rewrite N.eqb_refl, IH.
Qed.

Lemma includes_head n r : includes n (n ++ r) = true.
Proof.
  destruct (n ++ r) as [|c s] eqn:E.
  - destruct n; [reflexivity | discriminate E].
  - cbn [includes]. rewrite <- E, starts_with_app. reflexivity.
Qed.

Lemma includes_app_r n a b : includes n b = true -> includes n (a ++ b) = true.
Proof.
  intros H. induction a as [|c a IH]; [exact H | ].
  cbn [app includes]. rewrite IH. apply orb_true_r.
Qed.

(** An occurrence of a text that starts with [x] cannot begin inside a run
    free of [x]. *)
Lemma includes_skip x n a b :
  forallb (fun c => negb (N.eqb x c)) a = true ->
  includes (x :: n) (a ++ b) = true -> includes (x :: n) b = true.
Proof.
  intros Ha. induction a as [|c a IH]; [trivial | ].
  cbn [forallb] in Ha. apply andb_true_iff in Ha. destruct Ha as [Hc Ha].
  apply negb_true_iff in Hc.
  cbn [app includes starts_with]. rewrite Hc. cbn [andb orb]. exact (IH Ha).
Qed.

Lemma word_is_not_brace c : is_word c = true -> N.eqb u_lbrace c = false.
Proof.
  intros W. destruct (N.eqb_spec u_lbrace c) as [<- | ]; [discriminate W | reflexivity].
Qed.

Lemma placeholder_keys_fuel fuel1 :
  forall fuel2 s,
    length s <= fuel1 -> length s <= fuel2 ->
    placeholder_keys fuel1 s = placeholder_keys fuel2 s.
Proof.
  induction fuel1 as [|fuel1 IH]; intros fuel2 s L1 L2.
  - destruct s; [ | cbn in L1; lia]. now destruct fuel2.
  - destruct fuel2 as [|fuel2]; [destruct s; [reflexivity | cbn in L2; lia] | ].
    destruct s as [|c rest]; [reflexivity | ].
    cbn [length] in L1, L2. cbn [placeholder_keys].
    destruct (N.eqb c u_lbrace).
    + destruct (match_placeholder rest) as [[key rest'] | ] eqn:E.
      * apply match_placeholder_spec in E. destruct E as (-> & _ & _).
        rewrite length_app in L1, L2. cbn [length] in L1, L2.
        f_equal. apply IH; lia.
      * apply IH; lia.
    + apply IH; lia.
Qed.

(** What [placeholders] lists: the non-empty runs of word code units that
    stand between braces somewhere in the template. *)
Lemma placeholders_spec (template key : JsString) :
  In key (placeholders template)
  <-> key <> [] /\ forallb is_word key = true
      /\ includes (u_lbrace :: key ++ [u_rbrace]) template = true.
Proof.
  unfold placeholders.
  assert (G : forall fuel s, length s <= fuel ->
             (In key (placeholder_keys fuel s)
              <-> key <> [] /\ forallb is_word key = true
                  /\ includes (u_lbrace :: key ++ [u_rbrace]) s = true)).
  { induction fuel as [|fuel IH]; intros s L.
    - destruct s; [ | cbn in L; lia]. cbn [placeholder_keys In includes starts_with].
      split; [intros [] | intros (_ & _ & H); discriminate H].
    - destruct s as [|c rest].
      { cbn [placeholder_keys In includes starts_with].
        split; [intros [] | intros (_ & _ & H); discriminate H]. }
      cbn [length] in L. cbn [placeholder_keys].
      assert (Skip : N.eqb u_lbrace c = false ->
                     includes (u_lbrace :: key ++ [u_rbrace]) (c :: rest)
                     = includes (u_lbrace :: key ++ [u_rbrace]) rest).
      { intros E. cbn [includes starts_with]. now rewrite E. }
      destruct (N.eqb_spec c u_lbrace) as [-> | Hc].
      + destruct (match_placeholder rest) as [[k rest'] | ] eqn:E.
        * destruct (match_placeholder_spec _ _ _ E) as (-> & Hne & Hk).
          assert (L' : length rest' <= fuel)
            by (rewrite length_app in L; cbn [length] in L; lia).
          cbn [In]. rewrite (IH rest' L'). split.
          -- intros [<- | (H1 & H2 & H3)].
             ++ repeat split; [exact Hne | exact Hk | ].
                change (u_lbrace :: k ++ u_rbrace :: rest')
                  with ((u_lbrace :: k) ++ u_rbrace :: rest').
                replace ((u_lbrace :: k) ++ u_rbrace :: rest')
                  with ((u_lbrace :: k ++ [u_rbrace]) ++ rest')
                  by (cbn [app]; now rewrite <- app_assoc).
                apply includes_head.
             ++ repeat split; [exact H1 | exact H2 | ].
                apply (includes_app_r _ (u_lbrace :: k ++ [u_rbrace])) in H3.
                cbn [app] in H3. rewrite <- app_assoc in H3. exact H3.
          -- intros (H1 & H2 & H3).
             cbn [includes] in H3. apply orb_true_iff in H3.
             destruct H3 as [H3 | H3].
             ++ left. cbn [starts_with] in H3. rewrite N.eqb_refl in H3.
                cbn [andb] in H3.
                assert (M : match_placeholder (k ++ u_rbrace :: rest')
                            = Some (key, skipn (length (key ++ [u_rbrace]))
                                              (k ++ u_rbrace :: rest'))).
                { clear - H1 H2 H3.
                  revert H3. generalize (k ++ u_rbrace :: rest') as t. intros t H3.
                  assert (T : t = (key ++ [u_rbrace])
                                  ++ skipn (length (key ++ [u_rbrace])) t).
                  { revert t H3. generalize (key ++ [u_rbrace]) as n.
                    induction n as [|x n IHn]; intros t H3; [reflexivity | ].
                    destruct t as [|y t]; [discriminate H3 | ].
                    cbn [starts_with] in H3. apply andb_true_iff in H3.
                    destruct H3 as [Hx Hn]. apply N.eqb_eq in Hx. subst y.
                    cbn [length skipn app]. f_equal. exact (IHn t Hn). }
                  rewrite T at 1. rewrite <- app_assoc. cbn [app].
                  apply match_placeholder_found; assumption. }
                rewrite E in M. injection M as -> _. reflexivity.
             ++ right. repeat split; [exact H1 | exact H2 | ].
                replace (k ++ u_rbrace :: rest') with ((k ++ [u_rbrace]) ++ rest')
                  in H3 by (now rewrite <- app_assoc).
                apply includes_skip in H3; [exact H3 | ].
                rewrite forallb_app.
                assert (K : forallb (fun c => negb (N.eqb u_lbrace c)) k = true).
                { clear - Hk. induction k as [|x k IHk]; [reflexivity | ].
                  cbn [forallb] in *. apply andb_true_iff in Hk.
                  destruct Hk as [Hx Hk].
                  rewrite (word_is_not_brace _ Hx). cbn [negb andb].
                  exact (IHk Hk). }
                rewrite K. reflexivity.
        * rewrite (IH rest ltac:(lia)). split.
          -- intros (H1 & H2 & H3). repeat split; [exact H1 | exact H2 | ].
             cbn [includes]. rewrite H3. apply orb_true_r.
          -- intros (H1 & H2 & H3). repeat split; [exact H1 | exact H2 | ].
             cbn [includes] in H3. apply orb_true_iff in H3.
             destruct H3 as [H3 | H3]; [ | exact H3]. exfalso.
             cbn [starts_with] in H3. rewrite N.eqb_refl in H3. cbn [andb] in H3.
             assert (T : rest = (key ++ [u_rbrace])
                                ++ skipn (length (key ++ [u_rbrace])) rest).
             { clear - H3. revert rest H3. generalize (key ++ [u_rbrace]) as n.
               induction n as [|x n IHn]; intros t H3; [reflexivity | ].
               destruct t as [|y t]; [discriminate H3 | ].
               cbn [starts_with] in H3. apply andb_true_iff in H3.
               destruct H3 as [Hx Hn]. apply N.eqb_eq in Hx. subst y.
               cbn [length skipn app]. f_equal. exact (IHn t Hn). }
             rewrite T, <- app_assoc in E. cbn [app] in E.
             rewrite (match_placeholder_found key _ H1 H2) in E. discriminate E.
      + assert (E : N.eqb u_lbrace c = false)
          by (apply N.eqb_neq; congruence).
        rewrite (Skip E). apply IH. lia. }
  apply G. lia.
Qed.

(** X15.  Placeholders without a value stay as written: when [vars] has no
    value for any of the keys that stand between braces in the template,
    the template comes back unchanged, whatever else [vars] defines. *)
Theorem interpolate_undefined_keys (template : JsString) (vars : Vars) :
  (forall key, In key (placeholders template) -> vars key = None) ->
  interpolate template (Some vars) = template.
Proof.
  unfold interpolate, placeholders.
  generalize (length template) as fuel. intros fuel. revert template.
  induction fuel as [|fuel IH]; intros s Hnone; [reflexivity | ].
  destruct s as [|c rest]; [reflexivity | ].
  cbn [replace_placeholders placeholder_keys] in *.
  destruct (N.eqb_spec c u_lbrace) as [-> | _].
  - destruct (match_placeholder rest) as [[key rest'] | ] eqn:E.
    + apply match_placeholder_spec in E. destruct E as (-> & _ & _).
      unfold substitute. rewrite (Hnone key (or_introl eq_refl)).
      rewrite IH by (intros k Hk; apply Hnone; right; exact Hk).
      cbn [app]. now rewrite <- app_assoc.
    + now rewrite IH.
  - now rewrite IH.
Qed.

Lemma interpolate_plain_prefix (pre rest : JsString) (vars : option Vars) :
  forallb (fun c => negb (N.eqb c u_lbrace)) pre = true ->
  interpolate (pre ++ rest) vars = pre ++ interpolate rest vars.
Proof.
  intros Hpre. destruct vars as [v | ]; [ | reflexivity].
  unfold interpolate. induction pre as [|c pre IH]; [reflexivity | ].
  cbn [forallb] in Hpre. apply andb_true_iff in Hpre.
  destruct Hpre as [Hc Hpre]. apply negb_true_iff in Hc.
  cbn [app length replace_placeholders]. rewrite Hc. f_equal. exact (IH Hpre).
Qed.

Lemma interpolate_placeholder (key rest : JsString) (v : Vars) :
  key <> [] -> forallb is_word key = true ->
  interpolate (u_lbrace :: key ++ u_rbrace :: rest) (Some v) =
  substitute v key ++ interpolate rest (Some v).
Proof.
  intros Hne Hk. unfold interpolate.
  cbn [length replace_placeholders]. rewrite N.eqb_refl.
  rewrite (match_placeholder_found key rest Hne Hk). f_equal.
  apply replace_placeholders_fuel; [ | lia].
  rewrite length_app. cbn [length]. lia.
Qed.

(** X16.  Substitution is a single left-to-right pass: text before the first
    opening brace is copied, a placeholder [{key}] becomes the value of
    [key] as it is, and what a value contains is never scanned for further
    placeholders; the scan resumes after the closing brace. *)
Theorem interpolate_single_pass (pre key rest : JsString) (vars : Vars)
  (value : JsString) :
  forallb (fun c => negb (N.eqb c u_lbrace)) pre = true ->
  key <> [] -> forallb is_word key = true ->
  vars key = Some value ->
  interpolate (pre ++ u_lbrace :: key ++ u_rbrace :: rest) (Some vars) =
  pre ++ value ++ interpolate rest (Some vars).
Proof.
  intros Hpre Hne Hk Hv.
  rewrite (interpolate_plain_prefix _ _ _ Hpre).
  rewrite (interpolate_placeholder key rest vars Hne Hk).
  unfold substitute. now rewrite Hv.
Qed.

(** X17.  A template without an opening brace is returned as it is, whatever
    [vars] holds. *)
Theorem interpolate_without_braces (template : JsString) (vars : option Vars) :
  forallb (fun c => negb (N.eqb c u_lbrace)) template = true ->
  interpolate template vars = template.
Proof.
  intros H. rewrite <- (app_nil_r template) at 1.
  rewrite (interpolate_plain_prefix _ _ _ H).
  destruct vars; cbn; now rewrite app_nil_r.
Qed.

(** ** Properties of the stored locale *)

Lemma str_eqb_eq a b : str_eqb a b = true <-> a = b.
Proof.
  revert b. induction a as [|x a IH]; intros [|y b]; cbn [str_eqb];
    try (split; [discriminate | discriminate]); [split; reflexivity | ].
  rewrite andb_true_iff, N.eqb_eq, IH. split.
  - intros [-> ->]. reflexivity.
  - intros H. injection H as -> ->. now split.
Qed.

(** X18.  The locale survives a reload: what the page stores for a locale is read
    back as that locale.  And a locale other than English is only ever
    selected because the stored value names it, or is one of the two legacy
    names of simplified Chinese. *)
Theorem locale_round_trip :
  (forall l, initial_locale true (stored_locale l) = l)
  /\ (forall has_window stored l,
         initial_locale has_window stored = l ->
         l <> en ->
         has_window = true
         /\ (stored = stored_locale l
             \/ (l = cn_jt
                 /\ (stored = Some (js "zh-CN") \/ stored = Some (js "cn-zh"))))).
Proof.
  split.
  - intros l. destruct l; reflexivity.
  - intros w stored l H Hl. unfold initial_locale in H.
    destruct w; cbn [negb] in H; [ | congruence].
    split; [reflexivity | ].
    destruct stored as [s | ]; [ | congruence].
    destruct (str_eqb s (js "zh-CN")) eqn:E1.
    { apply str_eqb_eq in E1. subst s. cbn in H. subst l. right. auto. }
    destruct (str_eqb s (js "cn-zh")) eqn:E2.
    { apply str_eqb_eq in E2. subst s. cbn in H. subst l. right. auto. }
    cbn [orb] in H. left. unfold stored_locale.
    repeat match type of H with
    | (if str_eqb s ?lit then _ else _) = _ =>
        let E := fresh "E" in
        destruct (str_eqb s lit) eqn:E;
          [ apply str_eqb_eq in E; subst s l; reflexivity | ]
    end.
    congruence.
Qed.

(** ** Properties of the block loop *)

Lemma nesting_app open a b :
  nesting open (a ++ b) =
  match nesting open a with
  | Some open' => nesting open' b
  | None => None
  end.
Proof.
  revert open. induction a as [|x a IH]; intros open; [reflexivity | ].
  cbn [app nesting].
  destruct (block_kind x), open; try reflexivity; apply IH.
Qed.

Lemma kind_heading level x y :
  block_kind (js "<h" ++ level_digit level ++ x ++ y) = OtherBlock.
Proof. reflexivity. Qed.

Lemma kind_item x : block_kind (js "<li>" ++ x) = ListItem.
Proof. reflexivity. Qed.

Lemma kind_paragraph x : block_kind (js "<p>" ++ x) = OtherBlock.
Proof. reflexivity. Qed.

Lemma close_list_nesting blocks inList :
  nesting false blocks = Some inList ->
  nesting false (fst (close_list (blocks, inList))) = Some false
  /\ snd (close_list (blocks, inList)) = false.
Proof.
  intros H. unfold close_list. destruct inList; cbn [fst snd].
  - rewrite nesting_app, H. split; reflexivity.
  - split; [exact H | reflexivity].
Qed.

Lemma block_step_nesting formatInline st line :
  nesting false (fst st) = Some (snd st) ->
  nesting false (fst (block_step formatInline st line))
  = Some (snd (block_step formatInline st line)).
Proof.
  destruct st as [blocks inList]. cbn [fst snd]. intros H.
  pose proof (close_list_nesting blocks inList H) as [Hc Hf].
  unfold block_step. cbv zeta.
  destruct (trim line) as [|c trimmed].
  - rewrite Hc, Hf. reflexivity.
  - destruct (heading_match line) as [[level content] | ].
    + destruct (close_list (blocks, inList)) as [blocks' inList'].
      cbn [fst snd] in Hc |- *.
      rewrite nesting_app, Hc. cbn [nesting].
      rewrite kind_heading. reflexivity.
    + destruct (list_match line) as [content | ].
      * cbn [fst snd]. destruct inList.
        -- rewrite nesting_app, H. cbn [nesting].
           rewrite kind_item. reflexivity.
        -- rewrite !nesting_app, H. cbn [nesting].
           change (block_kind (js "<ul>")) with ListOpen. cbv iota.
           rewrite kind_item. reflexivity.
      * destruct (close_list (blocks, inList)) as [blocks' inList'].
        cbn [fst snd] in Hc |- *.
        rewrite nesting_app, Hc. cbn [nesting].
        rewrite kind_paragraph. reflexivity.
Qed.

Lemma fold_block_step_nesting formatInline lines st :
  nesting false (fst st) = Some (snd st) ->
  nesting false (fst (fold_left (block_step formatInline) lines st))
  = Some (snd (fold_left (block_step formatInline) lines st)).
Proof.
  revert st. induction lines as [|line lines IH]; intros st H; [exact H | ].
  cbn [fold_left]. apply IH. now apply block_step_nesting.
Qed.

(** X19.  Whatever the text and the inline formatter, the blocks produced are
    well nested: every list item lies inside a list, every heading and
    paragraph outside, no list is opened inside another or closed twice,
    and every list opened is closed at the end. *)
Theorem render_blocks_well_nested (formatInline : JsString -> JsString)
  (text : JsString) :
  nesting false (render_blocks formatInline text) = Some false.
Proof.
  unfold render_blocks.
  pose proof (fold_block_step_nesting formatInline (split_lines text)
                ([], false) eq_refl) as H.
  destruct (fold_left (block_step formatInline) (split_lines text) ([], false))
    as [blocks inList].
  cbn [fst snd] in H. exact (proj1 (close_list_nesting blocks inList H)).
Qed.

(** ** Properties of [apiRequest] *)

(** X20.  Data comes back only from a response that is not a 401, is [ok] and
    whose body parsed, and then it is that body.  A 401 gives the
    [AuthError] whatever else the response holds; its body is not looked
    at.  And when the body of any other response does not parse, the
    rejection of [json()] is what the caller gets, also for a failed
    response: its status is then not reported. *)
Theorem apiRequest_outcomes {Reason : Type} (response : Response Reason) :
  (forall data,
      apiRequest (inr response) = inr data ->
      status response <> 401%N /\ ok response = true
      /\ json response = inr data)
  /\ (status response = 401%N ->
      forall (ok' : bool) (json' : Reason + Json),
        apiRequest (inr (mkResponse (status response) ok' json'))
        = inl (AuthError (js "Unauthorized - please log in via Cloudflare Access")))
  /\ (status response <> 401%N ->
      forall reason,
        json response = inl reason ->
        apiRequest (inr response) = inl (PassedOn reason)).
Proof.
  unfold apiRequest. split; [ | split ].
  - intros data H.
    destruct (N.eqb_spec (status response) 401) as [E | E]; [discriminate H | ].
    destruct (json response) as [reason | d]; [discriminate H | ].
    destruct (ok response); cbn [negb] in H.
    + injection H as ->. repeat split; assumption.
    + destruct (failure_message d (status response)); discriminate H.
  - intros E ok' json'. cbn [status]. rewrite E. reflexivity.
  - intros E reason J.
    apply N.eqb_neq in E. rewrite E, J. reflexivity.
Qed.

Lemma apiRequest_failed {Reason : Type} (response : Response Reason) data :
  status response <> 401%N ->
  ok response = false ->
  json response = inr data ->
  apiRequest (inr response) =
    match failure_message data (status response) with
    | Some message => inl (PlainError message)
    | None => inl TypeError
    end.
Proof.
  intros E O J. unfold apiRequest.
  apply N.eqb_neq in E. rewrite E, J, O. reflexivity.
Qed.

(** X21.  A failed response whose body parsed is never handed back as data.
    When the body is an object with a truthy member [error], the error
    thrown carries that member: as it is when it is a non-empty string,
    converted by [String()] otherwise, and a conversion that throws
    surfaces as a [TypeError].  When the body is an object without a truthy
    [error], or a boolean, a number, a string or an array, the message is
    [API error: <status>] in decimal.  When the body is [null], reading
    [data.error] throws a [TypeError]. *)
Theorem apiRequest_failure_message {Reason : Type}
  (response : Response Reason) (data : Json) :
  status response <> 401%N ->
  ok response = false ->
  json response = inr data ->
  (data = JNull -> apiRequest (inr response) = inl TypeError)
  /\ (data <> JNull ->
      (forall members, data <> JObject members) ->
      apiRequest (inr response)
      = inl (PlainError (js "API error: " ++ decimal (status response))))
  /\ (forall members,
         data = JObject members ->
         (member (js "error") members = None ->
          apiRequest (inr response)
          = inl (PlainError (js "API error: " ++ decimal (status response))))
         /\ (forall e,
                member (js "error") members = Some e ->
                (truthy_json e = false ->
                 apiRequest (inr response)
                 = inl (PlainError (js "API error: " ++ decimal (status response))))
                /\ (forall s,
                       e = JString s -> s <> [] ->
                       apiRequest (inr response) = inl (PlainError s))
                /\ (truthy_json e = true ->
                    apiRequest (inr response)
                    = match to_string e with
                      | Some message => inl (PlainError message)
                      | None => inl TypeError
                      end))).
Proof.
  intros E O J. rewrite (apiRequest_failed response data E O J).
  unfold failure_message, status_message. split; [ | split ].
  - intros ->. reflexivity.
  - intros Hnull Hobj.
    destruct data; try reflexivity;
      [ contradiction Hnull; reflexivity
      | contradiction (Hobj members); reflexivity ].
  - intros members ->. cbn [read_error]. split.
    + intros ->. reflexivity.
    + intros e ->. split; [ | split ].
      * intros ->. reflexivity.
      * intros s -> Hs. destruct s as [|c s]; [contradiction Hs; reflexivity | ].
        reflexivity.
      * intros ->. reflexivity.
Qed.

(** ** Properties of the payload of [saveAiConfig] *)

Lemma draft_value_clean drafts key v :
  draft_value drafts key = Some v -> clean_value v.
Proof.
  unfold draft_value. destruct (drafts key) as [ | s | ].
  - intros H. injection H as <-. exact I.
  - destruct (trim s) as [|c r] eqn:E; intros H; injection H as <-.
    + exact I.
    + split; [discriminate | ]. rewrite <- E. apply trim_idempotent.
  - discriminate.
Qed.

Lemma draft_value_throws drafts key :
  draft_value drafts key = None <-> drafts key = Inherited.
Proof.
  unfold draft_value. destruct (drafts key) as [ | s | ].
  - split; discriminate.
  - destruct (trim s); split; discriminate.
  - split; reflexivity.
Qed.

Lemma In_set_entry {X} (entries : Entries X) key v k x :
  In (k, x) (set_entry entries key v) ->
  (k = key /\ x = v) \/ In (k, x) entries.
Proof.
  induction entries as [|[k0 x0] entries IH]; cbn [set_entry].
  - intros [H | []]. injection H as <- <-. left. now split.
  - destruct (str_eqb k0 key) eqn:E.
    + apply str_eqb_eq in E. subst k0.
      intros [H | H].
      * injection H as <- <-. left. now split.
      * right. right. exact H.
    + intros [H | H].
      * right. left. exact H.
      * destruct (IH H) as [H' | H']; [left; exact H' | right; right; exact H'].
Qed.

Lemma set_entry_has_key {X} (entries : Entries X) key v :
  exists x, In (key, x) (set_entry entries key v).
Proof.
  induction entries as [|[k0 x0] entries IH]; cbn [set_entry].
  - exists v. now left.
  - destruct (str_eqb k0 key) eqn:E.
    + apply str_eqb_eq in E. subst k0. exists v. now left.
    + destruct IH as [x Hx]. exists x. now right.
Qed.

Lemma set_entry_keeps_keys {X} (entries : Entries X) key v k x :
  In (k, x) entries -> exists x', In (k, x') (set_entry entries key v).
Proof.
  induction entries as [|[k0 x0] entries IH]; [intros [] | ]. cbn [set_entry].
  destruct (str_eqb k0 key) eqn:E.
  - intros [H | H].
    + injection H as <- <-. exists v. now left.
    + exists x. now right.
  - intros [H | H].
    + exists x. left. exact H.
    + destruct (IH H) as [x' Hx']. exists x'. now right.
Qed.

Lemma str_eqb_neq a b : str_eqb a b = false <-> a <> b.
Proof.
  split.
  - intros E H. apply str_eqb_eq in H. congruence.
  - intros H. destruct (str_eqb a b) eqn:E; [ | reflexivity].
    apply str_eqb_eq in E. contradiction.
Qed.

Lemma has_own_false record key :
  has_own record key = false <-> forall v, ~ In (key, v) (own record).
Proof.
  unfold has_own. split.
  - intros H v Hin.
    assert (T : existsb (fun e => str_eqb (fst e) key) (own record) = true).
    { apply existsb_exists. exists (key, v). split; [exact Hin | ].
      apply str_eqb_eq. reflexivity. }
    congruence.
  - intros H.
    destruct (existsb (fun e => str_eqb (fst e) key) (own record)) eqn:E;
      [ | reflexivity].
    apply existsb_exists in E. destruct E as ([k v] & Hin & Hk).
    apply str_eqb_eq in Hk. cbn [fst] in Hk. subst k.
    contradiction (H v Hin).
Qed.

(** What an assignment does to the own properties. *)
Lemma own_assign record key v :
  own (assign record key v) = own record
  \/ own (assign record key v) = set_entry (own record) key v.
Proof.
  unfold assign.
  destruct (str_eqb key proto_key && has_prototype record
            && negb (has_own record key)); [ | right; reflexivity].
  destruct v; left; reflexivity.
Qed.

Lemma own_assign_plain record key v :
  key <> proto_key ->
  own (assign record key v) = set_entry (own record) key v
  /\ has_prototype (assign record key v) = has_prototype record.
Proof.
  intros H. apply str_eqb_neq in H. unfold assign. rewrite H.
  split; reflexivity.
Qed.

Lemma own_assign_proto record v :
  has_prototype record = true ->
  (forall x, ~ In (proto_key, x) (own record)) ->
  own (assign record proto_key v) = own record.
Proof.
  intros Hp Hown. apply has_own_false in Hown. unfold assign.
  rewrite Hp, Hown, (proj2 (str_eqb_eq proto_key proto_key) eq_refl).
  destruct v; reflexivity.
Qed.

Lemma In_own_assign record key v k x :
  In (k, x) (own (assign record key v)) ->
  (k = key /\ x = v) \/ In (k, x) (own record).
Proof.
  destruct (own_assign record key v) as [-> | ->].
  - right. assumption.
  - apply In_set_entry.
Qed.

Lemma assign_keeps_keys record key v k x :
  In (k, x) (own record) -> exists x', In (k, x') (own (assign record key v)).
Proof.
  destruct (own_assign record key v) as [-> | ->].
  - exists x. assumption.
  - apply set_entry_keeps_keys.
Qed.

Lemma fold_thrown drafts todo :
  fold_left (update_step drafts) todo None = None.
Proof.
  induction todo as [|[k d] todo IH]; [reflexivity | ].
  cbn [fold_left update_step]. destruct d; cbn [negb]; exact IH.
Qed.

Lemma fold_throws drafts todo :
  forall record,
    fold_left (update_step drafts) todo (Some record) = None
    <-> exists key, In (key, true) todo /\ drafts key = Inherited.
Proof.
  induction todo as [|[k d] todo IH]; intros record.
  - cbn [fold_left]. split; [discriminate | intros (key & [] & _)].
  - cbn [fold_left update_step]. destruct d; cbn [negb].
    + destruct (draft_value drafts k) as [v | ] eqn:E.
      * rewrite IH. split.
        -- intros (key & Hin & Hd). exists key. split; [right; exact Hin | exact Hd].
        -- intros (key & [Hin | Hin] & Hd).
           ++ injection Hin as ->. apply draft_value_throws in Hd. congruence.
           ++ exists key. split; assumption.
      * rewrite fold_thrown. split; [ | reflexivity]. intros _.
        exists k. split; [left; reflexivity | ].
        apply draft_value_throws. exact E.
    + rewrite IH. split.
      * intros (key & Hin & Hd). exists key. split; [right; exact Hin | exact Hd].
      * intros (key & [Hin | Hin] & Hd); [discriminate Hin | ].
        exists key. split; assumption.
Qed.

Lemma fold_updates drafts todo :
  forall record done result,
    fold_left (update_step drafts) todo (Some record) = Some result ->
    (forall key v, In (key, v) (own record) ->
                   In (key, true) done /\ draft_value drafts key = Some v) ->
    (forall key, In (key, true) done -> key <> proto_key ->
                 exists v, In (key, v) (own record)) ->
    (forall key v, In (key, v) (own result) ->
                   In (key, true) (done ++ todo)
                   /\ draft_value drafts key = Some v)
    /\ (forall key, In (key, true) (done ++ todo) -> key <> proto_key ->
                    exists v, In (key, v) (own result)).
Proof.
  induction todo as [|[k d] todo IH]; intros record done result F H1 H2.
  - cbn [fold_left] in F. injection F as <-. rewrite app_nil_r.
    split; assumption.
  - cbn [fold_left update_step] in F.
    replace (done ++ (k, d) :: todo) with ((done ++ [(k, d)]) ++ todo)
      by (rewrite <- app_assoc; reflexivity).
    destruct d; cbn [negb] in F.
    + destruct (draft_value drafts k) as [v | ] eqn:E;
        [ | rewrite fold_thrown in F; discriminate F ].
      apply (IH _ _ _ F).
      * intros key x Hin. apply In_own_assign in Hin.
        destruct Hin as [[-> ->] | Hin].
        -- split; [ | exact E]. apply in_or_app. right. now left.
        -- destruct (H1 _ _ Hin) as [Hd Hv]. split; [ | exact Hv].
           apply in_or_app. now left.
      * intros key Hin Hne. apply in_app_or in Hin.
        destruct Hin as [Hin | [Hin | []]].
        -- destruct (H2 _ Hin Hne) as [x Hx].
           exact (assign_keeps_keys _ _ _ _ _ Hx).
        -- injection Hin as ->.
           rewrite (proj1 (own_assign_plain record key v Hne)).
           apply set_entry_has_key.
    + apply (IH _ _ _ F).
      * intros key x Hin. destruct (H1 _ _ Hin) as [Hd Hv].
        split; [ | exact Hv]. apply in_or_app. now left.
      * intros key Hin Hne. apply in_app_or in Hin.
        destruct Hin as [Hin | [Hin | []]]; [ | discriminate Hin].
        exact (H2 _ Hin Hne).
Qed.

(** Entries under other names never add an own [__proto__]. *)
Lemma fold_without_proto drafts todo :
  forall record result,
    (forall k d, In (k, d) todo -> k <> proto_key) ->
    fold_left (update_step drafts) todo (Some record) = Some result ->
    (forall x, ~ In (proto_key, x) (own record)) ->
    forall x, ~ In (proto_key, x) (own result).
Proof.
  induction todo as [|[k d] todo IH]; intros record result Hk F Hown.
  - cbn [fold_left] in F. injection F as <-. exact Hown.
  - cbn [fold_left update_step] in F.
    assert (Hk' : forall k' d', In (k', d') todo -> k' <> proto_key)
      by (intros k' d' Hin; apply (Hk k' d'); right; exact Hin).
    destruct d; cbn [negb] in F.
    + destruct (draft_value drafts k) as [v | ] eqn:E;
        [ | rewrite fold_thrown in F; discriminate F ].
      apply (IH _ _ Hk' F).
      intros x Hin.
      assert (Hne : k <> proto_key) by (apply (Hk k true); left; reflexivity).
      rewrite (proj1 (own_assign_plain record k v Hne)) in Hin.
      apply In_set_entry in Hin. destruct Hin as [[Hp _] | Hin].
      * congruence.
      * exact (Hown x Hin).
    + exact (IH _ _ Hk' F Hown).
Qed.

Lemma distinct_keys_tail {X} k (d : X) rest :
  distinct_keys ((k, d) :: rest) = true ->
  (forall k' d', In (k', d') rest -> k' <> k) /\ distinct_keys rest = true.
Proof.
  cbn [distinct_keys]. intros H. apply andb_true_iff in H.
  destruct H as [Hk Hr]. split; [ | exact Hr].
  intros k' d' Hin ->. apply negb_true_iff in Hk.
  assert (T : existsb (fun e => str_eqb (fst e) k) rest = true).
  { apply existsb_exists. exists (k, d'). split; [exact Hin | ].
    apply str_eqb_eq. reflexivity. }
  congruence.
Qed.

(** With every name occurring once, [__proto__] never becomes an own
    property: its one assignment reaches the inherited setter. *)
Lemma fold_distinct_proto drafts todo :
  forall record result,
    distinct_keys todo = true ->
    has_prototype record = true ->
    (forall x, ~ In (proto_key, x) (own record)) ->
    fold_left (update_step drafts) todo (Some record) = Some result ->
    forall x, ~ In (proto_key, x) (own result).
Proof.
  induction todo as [|[k d] todo IH]; intros record result Hd Hp Hown F.
  - cbn [fold_left] in F. injection F as <-. exact Hown.
  - destruct (distinct_keys_tail _ _ _ Hd) as [Hk Hd'].
    cbn [fold_left update_step] in F. destruct d; cbn [negb] in F.
    + destruct (draft_value drafts k) as [v | ] eqn:E;
        [ | rewrite fold_thrown in F; discriminate F ].
      destruct (str_eqb k proto_key) eqn:P.
      * apply str_eqb_eq in P. subst k.
        apply (fold_without_proto drafts todo _ _ Hk F).
        rewrite (own_assign_proto record v Hp Hown). exact Hown.
      * apply str_eqb_neq in P.
        destruct (own_assign_plain record k v P) as [Eo Ep].
        apply (IH _ _ Hd' (eq_trans Ep Hp)); [ | exact F].
        intros x Hin. rewrite Eo in Hin.
        apply In_set_entry in Hin. destruct Hin as [[Hq _] | Hin].
        -- congruence.
        -- exact (Hown x Hin).
    + exact (IH _ _ Hd' Hp Hown F).
Qed.

(** X22.  The loop that fills an update record throws exactly when the draft
    read for a dirty key is an inherited property.  Otherwise the record
    holds only keys marked dirty, each with the value of its draft as the
    loop computes it, and every value is fit to be sent: either [null],
    which a blank draft becomes, or text that is not empty and has no white
    space around it.  Every dirty key other than [__proto__] is in the
    record, and [__proto__] never is when no name occurs twice, as in what
    [Object.entries] returns. *)
Theorem updates_are_dirty_and_clean (dirty : Entries bool)
  (drafts : JsString -> Draft) :
  (collect_updates dirty drafts = None
   <-> exists key, In (key, true) dirty /\ drafts key = Inherited)
  /\ (forall update,
         collect_updates dirty drafts = Some update ->
         (forall key v,
             In (key, v) (own update) ->
             In (key, true) dirty
             /\ draft_value drafts key = Some v
             /\ clean_value v)
         /\ (forall key,
                In (key, true) dirty -> key <> proto_key ->
                exists v, In (key, v) (own update))
         /\ (distinct_keys dirty = true ->
             forall v, ~ In (proto_key, v) (own update))).
Proof.
  unfold collect_updates. split; [apply fold_throws | ].
  intros update F.
  destruct (fold_updates drafts dirty empty_record [] update F) as [H1 H2].
  { intros key v []. }
  { intros key []. }
  split; [ | split ].
  - intros key v Hin. destruct (H1 key v Hin) as [Hd Hv].
    repeat split; [exact Hd | exact Hv | exact (draft_value_clean _ _ _ Hv)].
  - exact H2.
  - intros Hd. apply (fold_distinct_proto drafts dirty empty_record update Hd).
    + reflexivity.
    + intros x [].
    + exact F.
Qed.

Lemma when_not_empty_none dirty drafts update :
  distinct_keys dirty = true ->
  collect_updates dirty drafts = Some update ->
  (when_not_empty update = None
   <-> forall key, In (key, true) dirty -> key = proto_key).
Proof.
  intros Hd F. unfold collect_updates in F.
  destruct (fold_updates drafts dirty empty_record [] update F) as [H1 H2].
  { intros key v []. }
  { intros key []. }
  assert (H3 := fold_distinct_proto drafts dirty empty_record update Hd
                  eq_refl (fun x (H : In (proto_key, x) []) => H) F).
  unfold when_not_empty. destruct (own update) as [|[k v] entries] eqn:U; split.
  - intros _ key Hin.
    destruct (str_eqb key proto_key) eqn:P; [now apply str_eqb_eq | ].
    apply str_eqb_neq in P. destruct (H2 key Hin P) as [x []].
  - reflexivity.
  - discriminate.
  - intros H. exfalso.
    destruct (H1 k v (or_introl eq_refl)) as [Hin _].
    rewrite (H k Hin) in H3. exact (H3 v (or_introl eq_refl)).
Qed.

(** X23.  Building the payload throws exactly when one of the two loops does.
    Otherwise the payload says nothing about what was not changed: with
    the names of each dirty record distinct, [baseUrls] is left out
    exactly when no base URL other than one named [__proto__] is dirty,
    [apiKeys] exactly when no such API key is dirty, and the primary
    provider and model are sent exactly when they are dirty. *)
Theorem payload_holds_only_changes (form : AiForm) :
  (build_payload form = None
   <-> (exists key, In (key, true) (baseUrlDirty form)
                    /\ baseUrlDrafts form key = Inherited)
       \/ (exists key, In (key, true) (apiKeyDirty form)
                       /\ apiKeyDrafts form key = Inherited))
  /\ (forall payload,
         build_payload form = Some payload ->
         distinct_keys (baseUrlDirty form) = true ->
         distinct_keys (apiKeyDirty form) = true ->
         (baseUrls payload = None
          <-> forall key, In (key, true) (baseUrlDirty form) -> key = proto_key)
         /\ (apiKeys payload = None
             <-> forall key, In (key, true) (apiKeyDirty form) -> key = proto_key)
         /\ (primaryProvider payload = None
             <-> aiPrimaryProviderDirty form = false)
         /\ (primaryModel payload = None
             <-> aiPrimaryModelDirty form = false)).
Proof.
  unfold build_payload.
  destruct (collect_updates (baseUrlDirty form) (baseUrlDrafts form))
    as [b | ] eqn:Eb.
  - destruct (collect_updates (apiKeyDirty form) (apiKeyDrafts form))
      as [a | ] eqn:Ea.
    + split.
      * split; [discriminate | ].
        intros [H | H].
        -- apply (fold_throws _ _ empty_record) in H.
           unfold collect_updates in Eb. congruence.
        -- apply (fold_throws _ _ empty_record) in H.
           unfold collect_updates in Ea. congruence.
      * intros payload H Db Da. injection H as <-.
        cbn [baseUrls apiKeys primaryProvider primaryModel].
        split; [exact (when_not_empty_none _ _ _ Db Eb) | ].
        split; [exact (when_not_empty_none _ _ _ Da Ea) | ].
        split.
        -- destruct (aiPrimaryProviderDirty form); split; congruence.
        -- destruct (aiPrimaryModelDirty form); split; congruence.
    + split; [ | discriminate ].
      split; [ | reflexivity ]. intros _. right.
      apply (fold_throws _ _ empty_record). exact Ea.
  - split; [ | discriminate ].
    split; [ | reflexivity ]. intros _. left.
    apply (fold_throws _ _ empty_record). exact Eb.
Qed.

(** ** The helpers at work *)

Example escapeHtml_example :
  escapeHtml (js "<a href='x'>T&C</a>")
  = js "&lt;a href=&#39;x&#39;&gt;T&amp;C&lt;/a&gt;"
  /\ escapeHtml (js "&amp;") = js "&amp;amp;"
  /\ escapeHtml (u_quot :: js "a") = js "&quot;a".
Proof. repeat split. Qed.

Example trim_example :
  trim (js "  a b " ++ nl) = js "a b"
  /\ trim (12288%N :: 65279%N :: js "x") = js "x"
  /\ trim (js " " ++ nl) = [].
Proof. repeat split. Qed.

Example sanitizeUrl_examples :
  sanitizeUrl (js "  HTTPS://example.com/a ") = js "HTTPS://example.com/a"
  /\ sanitizeUrl (js "/docs/readme.md") = js "/docs/readme.md"
  /\ sanitizeUrl (js "javascript:alert(1)") = js "#"
  /\ sanitizeUrl (js " JavaScript:alert(1)") = js "#"
  /\ sanitizeUrl (js "http:/example.com") = js "#"
  /\ sanitizeUrl (js "mailto:a@b.c") = js "#"
  /\ sanitizeUrl [] = js "#".
Proof. repeat split. Qed.

Example interpolate_examples :
  interpolate (js "Hello {name}, {count} new in {place}") (Some sample_vars)
  = js "Hello Ann, 3 new in {place}"
  /\ interpolate (js "{loop} and {name}") (Some sample_vars)
     = js "{name} and Ann"
  /\ interpolate (js "{{name}}") (Some sample_vars) = js "{Ann}"
  /\ interpolate (js "{} { name } {na me}") (Some sample_vars)
     = js "{} { name } {na me}"
  /\ interpolate (js "{name") (Some sample_vars) = js "{name"
  /\ interpolate (js "{constructor}") (Some sample_vars)
     = js "function Object() { [native code] }"
  /\ placeholders (js "Hello {name}, {count} new in {place} {") =
       [js "name"; js "count"; js "place"]
  /\ interpolate (js "Hello {name}") None = js "Hello {name}".
Proof. repeat split. Qed.

Example line_patterns :
  heading_match (js "## Title") = Some (2, js "Title")
  /\ heading_match (js "#Title") = None
  /\ heading_match (js "####### deep") = None
  /\ heading_match (js " # indented") = None
  /\ heading_match (js "# a" ++ [13%N]) = None
  /\ list_match (js "- item") = Some (js "item")
  /\ list_match (js "*   item") = Some (js "item")
  /\ list_match (js "-item") = None
  /\ split_lines (js "a" ++ nl ++ nl ++ js "b") = [js "a"; []; js "b"]
  /\ split_lines [] = [[]].
Proof. repeat split. Qed.

Example render_blocks_example :
  render_blocks (fun s => s)
    (js "# T" ++ nl ++ js "- a" ++ nl ++ js "* b" ++ nl ++ js "text"
     ++ nl ++ nl ++ js "- c")
  = [ js "<h1>T</h1>"; js "<ul>"; js "<li>a</li>"; js "<li>b</li>";
      js "</ul>"; js "<p>text</p>"; js "<ul>"; js "<li>c</li>"; js "</ul>" ].
Proof. reflexivity. Qed.

Example initial_locale_examples :
  initial_locale true (Some (js "zh-CN")) = cn_jt
  /\ initial_locale true (Some (js "de")) = en
  /\ initial_locale true None = en
  /\ initial_locale false (Some (js "ja")) = en.
Proof. repeat split. Qed.

Example to_string_examples :
  to_string (JArray [ JNumber (mkNumber false (js "1")); JNull;
                      JArray [JString (js "a"); JString (js "b")];
                      JBool true ])
  = Some (js "1,,a,b,true")
  /\ to_string (JArray []) = Some []
  /\ to_string (JArray [JNull]) = Some []
  /\ to_string (JObject [(js "code", JString (js "E1"))])
     = Some (js "[object Object]")
  /\ to_string (JObject [(js "toString", JString (js "x"))]) = None
  /\ to_string (JArray [JObject [(js "toString", JNull)]]) = None.
Proof. repeat split. Qed.

Example apiRequest_examples :
  apiRequest (inr bad_gateway) = inl (PassedOn (js "Unexpected token < in JSON"))
  /\ apiRequest (inr not_found) = inl (PlainError (js "API error: 404"))
  /\ apiRequest (inr null_body) = inl TypeError
  /\ apiRequest (inr quota_exceeded) = inl (PlainError (js "Quota exceeded"))
  /\ apiRequest (inr nested_error) = inl (PlainError (js "[object Object]"))
  /\ apiRequest (inr (mkResponse (Reason := JsString) 500 false
                        (inr (JObject [(js "error", JArray [])]))))
     = inl (PlainError [])
  /\ apiRequest (inr (mkResponse (Reason := JsString) 500 false
                        (inr (JObject [(js "error", JString (js "first"));
                                       (js "error", JString (js "second"))]))))
     = inl (PlainError (js "second"))
  /\ apiRequest (inr (mkResponse (Reason := JsString) 200 true (inr JNull)))
     = inr JNull
  /\ apiRequest (inr (mkResponse 401 true (inr JNull)))
     = inl (@AuthError JsString
              (js "Unauthorized - please log in via Cloudflare Access"))
  /\ apiRequest (inl (js "Failed to fetch"))
     = inl (PassedOn (js "Failed to fetch")).
Proof. repeat split. Qed.

Example build_payload_example :
  build_payload sample_form =
    Some {| baseUrls :=
              Some {| own :=
                        [ (js "ANTHROPIC_BASE_URL",
                           Some (js "https://proxy.example/v1"));
                          (js "OPENAI_BASE_URL", None) ];
                      has_prototype := true |};
            apiKeys := None;
            primaryProvider := None;
            primaryModel := Some deepseek_reasoner |}.
Proof. reflexivity. Qed.

(** A dirty [__proto__] alone leaves [baseUrls] out of the payload: the
    assignment of [null] removes the prototype and adds no property.  A
    dirty key whose draft is an inherited property makes the loop throw. *)
Example build_payload_edge_cases :
  build_payload proto_form =
    Some {| baseUrls := None; apiKeys := None;
            primaryProvider := None; primaryModel := None |}
  /\ collect_updates [(proto_key, true)]
       (fun key => if str_eqb key proto_key then DraftText [] else NoDraft)
     = Some {| own := []; has_prototype := false |}
  /\ collect_updates [(proto_key, true); (proto_key, true)]
       (fun key => if str_eqb key proto_key then DraftText [] else NoDraft)
     = Some {| own := [(proto_key, None)]; has_prototype := false |}
  /\ collect_updates [(js "constructor", true)] sample_drafts = None.
Proof. repeat split. Qed.

(** ** The theorems at concrete inputs *)

Lemma escapeHtml_injective_witness :
  escapeHtml (js "a<b") = escapeHtml (js "a<b") /\ js "a<b" = js "a<b".
Proof.
  split; [reflexivity | ].
  apply (escapeHtml_injective (js "a<b") (js "a<b")). reflexivity.
Defined.

Lemma interpolate_undefined_keys_witness :
  sample_vars (js "constructor") <> None
  /\ interpolate (js "{missing} of {total}, {name") (Some sample_vars)
     = js "{missing} of {total}, {name".
Proof.
  split; [discriminate | ].
  apply (interpolate_undefined_keys (js "{missing} of {total}, {name")
           sample_vars).
  intros key H. vm_compute in H.
  destruct H as [<- | [<- | []]]; reflexivity.
Defined.

Lemma interpolate_single_pass_witness :
  sample_vars (js "loop") = Some (js "{name}")
  /\ interpolate (js "see " ++ u_lbrace :: js "loop" ++ u_rbrace :: js " {name}")
                 (Some sample_vars)
     = js "see " ++ js "{name}" ++ interpolate (js " {name}") (Some sample_vars).
Proof.
  split; [reflexivity | ].
  apply (interpolate_single_pass (js "see ") (js "loop") (js " {name}")
           sample_vars (js "{name}")).
  - reflexivity.
  - discriminate.
  - reflexivity.
  - reflexivity.
Defined.

Lemma interpolate_without_braces_witness :
  interpolate (js "Dismiss") (Some sample_vars) = js "Dismiss".
Proof.
  apply (interpolate_without_braces (js "Dismiss") (Some sample_vars)).
  reflexivity.
Defined.

Lemma locale_round_trip_witness :
  initial_locale true (Some (js "cn-zh")) = cn_jt
  /\ (Some (js "cn-zh") = stored_locale cn_jt
      \/ (cn_jt = cn_jt
          /\ (Some (js "cn-zh") = Some (js "zh-CN")
              \/ Some (js "cn-zh") = Some (js "cn-zh")))).
Proof.
  split; [reflexivity | ].
  apply (proj2 locale_round_trip true (Some (js "cn-zh")) cn_jt).
  - reflexivity.
  - discriminate.
Defined.

Lemma apiRequest_outcomes_witness :
  status bad_gateway <> 401%N
  /\ apiRequest (inr bad_gateway)
     = inl (PassedOn (js "Unexpected token < in JSON")).
Proof.
  assert (H : status bad_gateway <> 401%N) by discriminate.
  split; [exact H | ].
  exact (proj2 (proj2 (apiRequest_outcomes bad_gateway)) H
               (js "Unexpected token < in JSON") eq_refl).
Defined.

Lemma apiRequest_failure_message_witness :
  status quota_exceeded <> 401%N
  /\ ok quota_exceeded = false
  /\ apiRequest (inr quota_exceeded) = inl (PlainError (js "Quota exceeded")).
Proof.
  assert (H : status quota_exceeded <> 401%N) by discriminate.
  split; [exact H | split; [reflexivity | ]].
  assert (Hs : js "Quota exceeded" <> []) by discriminate.
  exact (proj1 (proj2 (proj2 (proj2 (proj2
           (apiRequest_failure_message quota_exceeded
              (JObject [(js "error", JString (js "Quota exceeded"))])
              H eq_refl eq_refl))
           [(js "error", JString (js "Quota exceeded"))] eq_refl)
           (JString (js "Quota exceeded")) eq_refl))
           (js "Quota exceeded") eq_refl Hs).
Defined.

Lemma payload_holds_only_changes_witness :
  distinct_keys (baseUrlDirty sample_form) = true
  /\ distinct_keys (apiKeyDirty sample_form) = true
  /\ (forall payload,
         build_payload sample_form = Some payload ->
         apiKeys payload = None /\ primaryModel payload <> None).
Proof.
  split; [reflexivity | split; [reflexivity | ]].
  intros payload H.
  destruct (proj2 (payload_holds_only_changes sample_form) payload H
              eq_refl eq_refl) as (_ & Ha & _ & Hm).
  split.
  - apply Ha. intros key [].
  - intros E. apply Hm in E. discriminate E.
Defined.

End ClientFacts.
